(** * A shallow embedding of [app.py]: the recorder monitor

    The monitor polls a primary ingest system for its active jobs, diffs the
    snapshot against the one it kept from the previous cycle, starts and stops
    recordings on a secondary recorder accordingly, and writes the snapshot to
    a state file.  Python values that reach the program from outside (HTTP
    bodies, the state file) are modelled as decoded JSON values; the
    dictionaries the program keeps are finite maps; HTTP, the state file and
    the log are threaded through a small state-and-exception monad.

    Left out: the lock (one cycle runs at a time, and the status surface is
    read between cycles), the sleep between cycles, the retries of the HTTP
    adapter (a request is taken with its final answer), and the Flask
    server around [get_current_status]. *)

From stdpp Require Import gmap strings list fin_maps.
From Stdlib Require Import ZArith Ascii.

Set Warnings "-register-all".

Open Scope Z_scope.

(** ** Decoded JSON values

    What [response.json()] and [json.load] return.  An object is kept as the
    list of its items; the decoder has already resolved repeated names, so the
    names of an object are distinct and lookup takes the first item of a name.
    Numbers are the integers (no payload of this program carries a float that
    the code inspects). *)

Inductive json :=
| JNull
| JBool (b : bool)
| JNum (n : Z)
| JStr (s : string)
| JList (items : list json)
| JObj (fields : list (string * json)).

(** Uncaught Python exceptions the program can run into on ill-shaped data. *)
Inductive exn := AttributeError | TypeError | KeyError.

Inductive res (A : Type) :=
| Ret (a : A)
| Raise (e : exn).
Arguments Ret {A} a.
Arguments Raise {A} e.

Definition res_bind {A B} (r : res A) (k : A → res B) : res B :=
  match r with
  | Ret a => k a
  | Raise e => Raise e
  end.

(** Python truth value of a decoded value ([if x:]). *)
Definition truthy (j : json) : bool :=
  match j with
  | JNull => false
  | JBool b => b
  | JNum n => negb (n =? 0)
  | JStr s => negb (String.eqb s "")
  | JList l => match l with [] => false | _ => true end
  | JObj f => match f with [] => false | _ => true end
  end.

Fixpoint assoc (k : string) (f : list (string * json)) : option json :=
  match f with
  | [] => None
  | (k', v) :: f' => if String.eqb k k' then Some v else assoc k f'
  end.

(** [d.get(k, dflt)]: only a dict has [get]. *)
Definition py_get (k : string) (dflt : json) (d : json) : res json :=
  match d with
  | JObj f => Ret (default dflt (assoc k f))
  | _ => Raise AttributeError
  end.

(** [d[k]] with a string [k]: [KeyError] on a dict without [k], [TypeError]
    on anything that is not a dict. *)
Definition py_index (k : string) (d : json) : res json :=
  match d with
  | JObj f => match assoc k f with Some v => Ret v | None => Raise KeyError end
  | _ => Raise TypeError
  end.

Fixpoint chars (s : string) : list json :=
  match s with
  | EmptyString => []
  | String a s' => JStr (String a EmptyString) :: chars s'
  end.

(** [for x in v]: a list yields its items, a dict its names, a string its
    characters; nothing else is iterable. *)
Definition py_iter (v : json) : res (list json) :=
  match v with
  | JList l => Ret l
  | JObj f => Ret (map (λ kv, JStr kv.1) f)
  | JStr s => Ret (chars s)
  | _ => Raise TypeError
  end.

(** [v == s] for a string literal [s]. *)
Definition is_str (s : string) (v : json) : bool :=
  match v with
  | JStr t => String.eqb t s
  | _ => false
  end.

(** ** String operations of the standard library *)

(** [s.split(c)]. *)
Fixpoint split (c : ascii) (s : string) : list string :=
  match s with
  | EmptyString => [EmptyString]
  | String a s' =>
      if Ascii.eqb a c then EmptyString :: split c s'
      else match split c s' with
           | [] => [String a EmptyString]
           | w :: ws => String a w :: ws
           end
  end.

(** [c.join(l)]. *)
Fixpoint join (c : ascii) (l : list string) : string :=
  match l with
  | [] => EmptyString
  | [w] => w
  | w :: ws => w +:+ String c (join c ws)
  end.

(** The part of [s] before its last [c], when [c] occurs in [s]. *)
Fixpoint before_last (c : ascii) (s : string) : option string :=
  match s with
  | EmptyString => None
  | String a s' =>
      match before_last c s' with
      | Some p => Some (String a p)
      | None => if Ascii.eqb a c then Some EmptyString else None
      end
  end.

(** [s.rsplit(c, 1)[0]]. *)
Definition rsplit1_head (c : ascii) (s : string) : string :=
  default s (before_last c s).

Fixpoint occurs (c : ascii) (s : string) : bool :=
  match s with
  | EmptyString => false
  | String a s' => Ascii.eqb a c || occurs c s'
  end.

(** ** Dictionary keys

    The components of the tuples the monitor uses as dictionary keys.  Only
    hashable values can be keys; Python identifies [True] with [1] and [False]
    with [0] there. *)

Inductive atom :=
| ANone
| ANum (n : Z)
| AStr (s : string).

Global Instance atom_eq_dec : EqDecision atom.
Proof. solve_decision. Defined.

Global Instance atom_countable : Countable atom.
Proof.
  refine (inj_countable'
            (λ a, match a with
                  | ANone => inl ()
                  | ANum n => inr (inl n)
                  | AStr s => inr (inr s)
                  end)
            (λ x, match x with
                  | inl _ => ANone
                  | inr (inl n) => ANum n
                  | inr (inr s) => AStr s
                  end) _).
  by intros [].
Defined.

Definition hashable (v : json) : res atom :=
  match v with
  | JNull => Ret ANone
  | JBool b => Ret (ANum (if b then 1 else 0))
  | JNum n => Ret (ANum n)
  | JStr s => Ret (AStr s)
  | JList _ | JObj _ => Raise TypeError
  end.

Definition atom_str (a : atom) : option string :=
  match a with
  | AStr s => Some s
  | _ => None
  end.

(** ['|'.join(k)] for a key tuple [k]: [None] stands for the [TypeError] on a
    component that is not a string. *)
Definition join_key (k : list atom) : option string :=
  join "|" <$> mapM atom_str k.

(** [tuple(s.split('|'))]. *)
Definition split_key (s : string) : list atom :=
  AStr <$> split "|" s.

(** One item of the two dict comprehensions that turn tuple keys into
    strings on save and back on load. *)
Definition join_item (kv : list atom * json) : option (string * json) :=
  s ← join_key kv.1; Some (s, kv.2).

Definition split_item (kv : string * json) : list atom * json :=
  (split_key kv.1, kv.2).

Global Instance res_ret : MRet res := @Ret.
Global Instance res_mbind : MBind res := λ A B k r, res_bind r k.
Global Instance res_fmap : FMap res := λ A B f r, res_bind r (λ a, Ret (f a)).

(** ** The static tables of [__init__] *)

Definition ingest_id_map : gmap string string :=
  list_to_map
    [("9C64992CFF3A4A3FA3C635BB7D9B6071", "PCR 1");
     ("9526F8488B06423C8C81B942B3D04B89", "PCR 2");
     ("69774E0644F94C89A87785972AB7057A", "PCR 3");
     ("53994615DC194483B753424DAD50EFE5", "PCR 4")].

Definition logical_name_to_dvr_source_id : gmap string Z :=
  list_to_map [("PCR 1", 0); ("PCR 2", 1); ("PCR 3", 2); ("PCR 4", 3)].

(** [table.get(v)] on a table with string keys, for a value [v] that need not
    be a string: an unhashable [v] raises, any other non-string is absent. *)
Definition table_get {A} (table : gmap string A) (v : json) : res (option A) :=
  match v with
  | JStr s => Ret (table !! s)
  | JList _ | JObj _ => Raise TypeError
  | _ => Ret None
  end.

(** ** The outside world

    The HTTP calls the monitor issues, what comes back, and the state file. *)

Inductive request :=
| GetActiveJobs                              (* GET /ingests/activejobsinfo *)
| GetFiles (ingest_id job_id : json)         (* GET /ingests/{..}/jobs/{..}/files *)
| GetSources                                 (* GET /sources *)
| PutRecordingName (source : Z) (name : json)(* PUT /sources/{id}/recording_name *)
| GetRecord (source : Z)                     (* GET /sources/{id}/record *)
| GetStop (source : Z).                      (* GET /sources/{id}/stop *)

(** [RequestFailed]: the call or [raise_for_status] raised a
    [RequestException] (after the adapter's retries, where it has any);
    [NotJson]: the body did not decode; [Body j]: it decoded to [j]. *)
Inductive response :=
| RequestFailed
| NotJson
| Body (j : json).

Definition succeeded (r : response) : bool :=
  match r with
  | RequestFailed => false
  | _ => true
  end.

(** The state file: missing, present but unreadable, or holding a text that
    decodes to a JSON value ([Some]) or does not ([None]).  [json.dump] and
    [json.load] are taken to be inverse on decoded values. *)
Inductive file :=
| Absent
| Unreadable
| Holds (content : option json).

(** What [save_state] meets on disk: the directory can be made and the file
    written; [os.makedirs] raises; or the directory is there and opening or
    writing the file raises (the file is then taken to stay as it was). *)
Inductive storage :=
| Writable
| NoDirectory
| NoWrite.

Inductive level := Info | Error.

(** The lines the program logs, named by what they say; the parameters are
    the values a line formats (the text of a caught exception is left out).
    In the order of the source: [load_state] (invalid format, loaded, read
    failure, decode error, no file), [save_state] (write failure, unexpected
    error), [get_active_jobs_info] and [get_files_info] (invalid format,
    decode error, request failure), the start and stop actions, the status
    check, and the catch-all of the monitoring loop. *)
Inductive message :=
| InvalidStateFormat | LoadedState | FailedReadState | StateDecodeError
| NoStateFile | FailedSaveState | UnexpectedSaveError
| InvalidActiveJobsFormat | ActiveJobsDecodeError | FailedGetActiveJobs
| InvalidFilesFormat (ingest_id job_id : json)
| FilesDecodeError (ingest_id job_id : json)
| FailedGetFiles (ingest_id job_id : json)
| NoSourceId (logical_name : json)
| AlreadyRecording (logical_name : json)
| RecordingNameSet (basename logical_name : json)
| FailedSetRecordingName (logical_name : json)
| StartedRecording (logical_name : json)
| FailedStartRecording (logical_name : json)
| NotRecording (logical_name : json)
| StoppedRecording (logical_name : json)
| FailedStopRecording (logical_name : json)
| SourceOutOfRange (source : Z)
| InvalidSourcesFormat | SourcesDecodeError | FailedGetSources
| UnexpectedLoopError (e : exn).

(** What a run leaves behind, in order: the requests it issued and the
    lines it logged. *)
Inductive event :=
| Http (r : request)
| Log (l : level) (m : message).

Definition is_start (e : event) : bool :=
  match e with Http (GetRecord _) => true | _ => false end.
Definition is_stop (e : event) : bool :=
  match e with Http (GetStop _) => true | _ => false end.
Definition is_put (e : event) : bool :=
  match e with Http (PutRecordingName _ _) => true | _ => false end.
Definition is_error (e : event) : bool :=
  match e with Log Error _ => true | _ => false end.
Definition is_primary (e : event) : bool :=
  match e with Http GetActiveJobs | Http (GetFiles _ _) => true | _ => false end.
Definition is_http (e : event) : bool :=
  match e with Http _ => true | _ => false end.

(** The value a cycle stores for a job. *)
Definition job_record (basename logical_name : string) : json :=
  JObj [("basename", JStr basename); ("logical_name", JStr logical_name)].

(** ** The monitor *)

Section Monitor.
Context {World : Type}.
(** How the network answers a request, and what it becomes by it. *)
Variable http : request → World → response * World.

(** The monitor's mutable surroundings: the network, the state file, what
    a save meets on disk, and the attribute [self.previous_active_jobs]. *)
Record machine := Machine {
  net : World;
  state_file : file;
  disk : storage;
  previous_active_jobs : gmap (list atom) json
}.

Record outcome (A : Type) := Outcome {
  result : res A;
  final : machine;
  emitted : list event
}.
Arguments Outcome {A} _ _ _.
Arguments result {A} _.
Arguments final {A} _.
Arguments emitted {A} _.

Definition M (A : Type) : Type := machine → outcome A.

Definition ret {A} (a : A) : M A := λ m, Outcome (Ret a) m [].

Definition bind {A B} (c : M A) (k : A → M B) : M B := λ m,
  let o := c m in
  match result o with
  | Ret a =>
      let o' := k a (final o) in
      Outcome (result o') (final o') (emitted o ++ emitted o')
  | Raise e => Outcome (Raise e) (final o) (emitted o)
  end.

Definition lift {A} (r : res A) : M A := λ m, Outcome r m [].

Definition send (r : request) : M response := λ m,
  let '(answer, w) := http r (net m) in
  Outcome (Ret answer)
          (Machine w (state_file m) (disk m) (previous_active_jobs m))
          [Http r].

Definition logging (l : level) (msg : message) : M unit := λ m,
  Outcome (Ret ()) m [Log l msg].

Definition get_previous : M (gmap (list atom) json) := λ m,
  Outcome (Ret (previous_active_jobs m)) m [].

Definition set_previous (jobs : gmap (list atom) json) : M unit := λ m,
  Outcome (Ret ()) (Machine (net m) (state_file m) (disk m) jobs) [].

Definition read_file : M file := λ m, Outcome (Ret (state_file m)) m [].

Definition read_disk : M storage := λ m, Outcome (Ret (disk m)) m [].

Definition write_file (j : json) : M unit := λ m,
  Outcome (Ret ())
          (Machine (net m) (Holds (Some j)) (disk m) (previous_active_jobs m))
          [].

Global Instance M_ret : MRet M := @ret.
Global Instance M_bind : MBind M := λ A B k c, bind c k.

Fixpoint foldM {A B} (f : A → B → M A) (a : A) (l : list B) : M A :=
  match l with
  | [] => ret a
  | x :: l' => a' ← f a x; foldM f a' l'
  end.

Fixpoint forM_ {B} (f : B → M unit) (l : list B) : M unit :=
  match l with
  | [] => ret ()
  | x :: l' => f x;; forM_ f l'
  end.

(** *** State store *)

Definition load_state : M unit :=
  f ← read_file;
  match f with
  | Absent =>
      set_previous ∅;;
      logging Info NoStateFile
  | Unreadable =>
      logging Error FailedReadState;;
      set_previous ∅
  | Holds None =>
      logging Error StateDecodeError;;
      set_previous ∅
  | Holds (Some (JObj data)) =>
      set_previous (list_to_map (split_item <$> data));;
      logging Info LoadedState
  | Holds (Some _) =>
      logging Error InvalidStateFormat;;
      set_previous ∅;;
      logging Info LoadedState
  end.

(** [{'|'.join(k): v for k, v in jobs.items()}]; [None] is the [TypeError]
    of a key with a component that is not a string.  Where two keys join to
    the same string the source keeps the one inserted last; that order is
    not kept by a finite map, and the properties below that read a joined
    map take keys that do not collide. *)
Definition joined (jobs : gmap (list atom) json) : option (gmap string json) :=
  list_to_map <$> mapM join_item (map_to_list jobs).

Definition save_state : M unit :=
  d ← read_disk;
  match d with
  | NoDirectory => logging Error FailedSaveState
  | _ =>
      jobs ← get_previous;
      match joined jobs with
      | Some data =>
          match d with
          | Writable => write_file (JObj (map_to_list data))
          | _ => logging Error FailedSaveState
          end
      | None => logging Error UnexpectedSaveError
      end
  end.

(** [v.copy()]: dicts and lists have it. *)
Definition py_copy (v : json) : res json :=
  match v with
  | JObj _ | JList _ => Ret v
  | _ => Raise AttributeError
  end.

(** One item of the dict comprehension of [get_current_status]:
    ['|'.join(k): v.copy()]. *)
Definition status_item (kv : list atom * json) : res (string * json) :=
  match join_key kv.1 with
  | Some s => v ← py_copy kv.2; Ret (s, v)
  | None => Raise TypeError
  end.

(** The status surface.  It only reads the attribute. *)
Definition get_current_status (jobs : gmap (list atom) json)
  : res (gmap string json) :=
  list_to_map <$> mapM status_item (map_to_list jobs).

(** *** Primary job source client *)

Definition get_active_jobs_info : M (list json) :=
  answer ← send GetActiveJobs;
  match answer with
  | Body (JList data) => mret data
  | Body _ => logging Error InvalidActiveJobsFormat;; mret []
  | NotJson => logging Error ActiveJobsDecodeError;; mret []
  | RequestFailed => logging Error FailedGetActiveJobs;; mret []
  end.

Definition get_files_info (ingest_id job_id : json) : M json :=
  answer ← send (GetFiles ingest_id job_id);
  match answer with
  | Body (JObj data) => mret (JObj data)
  | Body _ => logging Error (InvalidFilesFormat ingest_id job_id);; mret (JObj [])
  | NotJson => logging Error (FilesDecodeError ingest_id job_id);; mret (JObj [])
  | RequestFailed => logging Error (FailedGetFiles ingest_id job_id);; mret (JObj [])
  end.

(** The loop of [extract_primary_file_basename] over the items of
    [files_info.get('data', [])]. *)
Fixpoint first_primary (files : list json) : res (option string) :=
  match files with
  | [] => Ret None
  | file_data :: rest =>
      tag ← py_get "presetTag" JNull file_data;
      if is_str "Primary" tag then
        file_name ← py_get "fileName" JNull file_data;
        if truthy file_name then
          match file_name with
          | JStr s => Ret (Some (rsplit1_head "." s))
          | _ => Raise AttributeError
          end
        else first_primary rest
      else first_primary rest
  end.

Definition extract_primary_file_basename (files_info : json)
  : res (option string) :=
  data ← py_get "data" (JList []) files_info;
  files ← py_iter data;
  first_primary files.

Definition extract_basename (ingest_id job_id : json) : M (option string) :=
  files_info ← get_files_info ingest_id job_id;
  lift (extract_primary_file_basename files_info).

(** *** Secondary recorder client *)

Definition is_dvr_recording (dvr_source_id : Z) : M json :=
  answer ← send GetSources;
  match answer with
  | Body (JList sources) =>
      if (0 <=? dvr_source_id) && (dvr_source_id <? Z.of_nat (length sources)) then
        match sources !! Z.to_nat dvr_source_id with
        | Some source => lift (py_get "is_recording" (JBool false) source)
        | None => mret (JBool false)
        end
      else
        logging Error (SourceOutOfRange dvr_source_id);;
        mret (JBool false)
  | Body _ => logging Error InvalidSourcesFormat;; mret (JBool false)
  | NotJson => logging Error SourcesDecodeError;; mret (JBool false)
  | RequestFailed => logging Error FailedGetSources;; mret (JBool false)
  end.

Definition start_secondary_recording (basename logical_name : json) : M unit :=
  source ← lift (table_get logical_name_to_dvr_source_id logical_name);
  match source with
  | None => logging Error (NoSourceId logical_name)
  | Some dvr_source_id =>
      is_recording ← is_dvr_recording dvr_source_id;
      if truthy is_recording then
        logging Info (AlreadyRecording logical_name)
      else
        named ← send (PutRecordingName dvr_source_id basename);
        if succeeded named then
          logging Info (RecordingNameSet basename logical_name);;
          started ← send (GetRecord dvr_source_id);
          if succeeded started then
            logging Info (StartedRecording logical_name)
          else logging Error (FailedStartRecording logical_name)
        else logging Error (FailedSetRecordingName logical_name)
  end.

Definition stop_secondary_recording (basename logical_name : json) : M unit :=
  source ← lift (table_get logical_name_to_dvr_source_id logical_name);
  match source with
  | None => logging Error (NoSourceId logical_name)
  | Some dvr_source_id =>
      is_recording ← is_dvr_recording dvr_source_id;
      if truthy is_recording then
        stopped ← send (GetStop dvr_source_id);
        if succeeded stopped then
          logging Info (StoppedRecording logical_name)
        else logging Error (FailedStopRecording logical_name)
      else logging Info (NotRecording logical_name)
  end.

(** *** Reconciliation engine *)

(** The body of the inner loop of [process_polling_cycle]: one job of an
    ingest, added to [current_active_jobs] when it has a basename. *)
Definition scan_job (ingest_id : json) (logical_name : string)
    (current_active_jobs : gmap (list atom) json) (job : json)
  : M (gmap (list atom) json) :=
  job_id ← lift (py_get "id" JNull job);
  basename ← extract_basename ingest_id job_id;
  match basename with
  | Some b =>
      if truthy (JStr b) then
        i ← lift (hashable ingest_id);
        j ← lift (hashable job_id);
        mret (<[ [i; j] := job_record b logical_name ]> current_active_jobs)
      else mret current_active_jobs
  | None => mret current_active_jobs
  end.

(** [self.ingest_id_map.get(ingest_id, "Unknown Ingest")]. *)
Definition logical_name_of (ingest_id : json) : res string :=
  default "Unknown Ingest" <$> table_get ingest_id_map ingest_id.

(** The body of the outer loop: one entry of the active-jobs list. *)
Definition scan_ingest (current_active_jobs : gmap (list atom) json)
    (ingest : json) : M (gmap (list atom) json) :=
  ingest_id ← lift (py_get "ingestId" JNull ingest);
  logical_name ← lift (logical_name_of ingest_id);
  jobs ← lift (py_get "activeJobsInfo" (JList []) ingest ≫= py_iter);
  foldM (scan_job ingest_id logical_name) current_active_jobs jobs.

Definition new_jobs (current previous : gmap (list atom) json) : gset (list atom) :=
  dom current ∖ dom previous.

Definition stopped_jobs (current previous : gmap (list atom) json) : gset (list atom) :=
  dom previous ∖ dom current.

(** The body of [for key in new_jobs]. *)
Definition start_job (current : gmap (list atom) json) (key : list atom) : M unit :=
  match current !! key with
  | Some job_info =>
      basename ← lift (py_index "basename" job_info);
      logical_name ← lift (py_index "logical_name" job_info);
      start_secondary_recording basename logical_name
  | None => lift (Raise KeyError)
  end.

(** The body of [for key in stopped_jobs]. *)
Definition stop_job (previous : gmap (list atom) json) (key : list atom) : M unit :=
  match previous !! key with
  | Some job_info =>
      if truthy job_info then
        basename ← lift (py_index "basename" job_info);
        logical_name ← lift (py_index "logical_name" job_info);
        stop_secondary_recording basename logical_name
      else mret ()
  | None => mret ()
  end.

(** The part of a cycle under the lock: diff, act, replace, persist.  A
    Python set is walked in an order the language does not fix; [elements]
    stands for it. *)
Definition reconcile (current : gmap (list atom) json) : M unit :=
  previous ← get_previous;
  forM_ (start_job current) (elements (new_jobs current previous));;
  forM_ (stop_job previous) (elements (stopped_jobs current previous));;
  set_previous current;;
  save_state.

(** One cycle: fetch the active jobs, build the current set, reconcile. *)
Definition process_polling_cycle : M unit :=
  active_jobs_info ← get_active_jobs_info;
  current_active_jobs ← foldM scan_ingest ∅ active_jobs_info;
  reconcile current_active_jobs.

(** One turn of [run_monitoring_loop]: an exception of the cycle is logged
    and the loop goes on. *)
Definition monitoring_turn : M unit := λ m,
  let o := process_polling_cycle m in
  match result o with
  | Ret _ => o
  | Raise e =>
      Outcome (Ret ()) (final o) (emitted o ++ [Log Error (UnexpectedLoopError e)])
  end.

End Monitor.

Arguments Outcome {World A} _ _ _.
Arguments result {World A} _.
Arguments final {World A} _.
Arguments emitted {World A} _.
Arguments Machine {World} _ _ _ _.

(** ** Two stand-ins for the outside world

    A scripted network, which answers by a fixed table and has no state, and
    a recorder that behaves as its API says: it lists its sources with their
    recording flags, accepts names, and sets or clears a flag on record or
    stop.  Requests that are not the recorder's go to a script. *)

Definition scripted (answers : request → response)
  (r : request) (w : unit) : response * unit := (answers r, w).

Definition source_entry (is_recording : bool) : json :=
  JObj [("is_recording", JBool is_recording)].

Definition recorder (primary : request → response)
  (r : request) (flags : list bool) : response * list bool :=
  match r with
  | GetSources => (Body (JList (source_entry <$> flags)), flags)
  | PutRecordingName _ _ => (Body JNull, flags)
  | GetRecord i => (Body JNull, <[Z.to_nat i := true]> flags)
  | GetStop i => (Body JNull, <[Z.to_nat i := false]> flags)
  | _ => (primary r, flags)
  end.

(** ** Vocabulary of the properties

    Predicates that the statements below use to describe inputs and runs. *)

(** A key as a cycle builds it from two string identifiers that do not hold
    the separator. *)
Definition plain_key (k : list atom) : Prop :=
  ∃ a b, k = [AStr a; AStr b] ∧ occurs "|" a = false ∧ occurs "|" b = false.

(** A snapshot as a cycle leaves it when the identifiers are strings: every
    key is a tuple of strings and every value a record of two strings. *)
Definition recorded (jobs : gmap (list atom) json) : Prop :=
  ∀ k v, jobs !! k = Some v → is_Some (join_key k) ∧ ∃ b l, v = job_record b l.

(** No other key of the snapshot joins to the same string as [k]. *)
Definition unambiguous (jobs : gmap (list atom) json) (k : list atom) : Prop :=
  ∀ k', k' ∈ dom jobs → join_key k' = join_key k → k' = k.

(** An entry of a file listing that is not tagged as the primary output. *)
Definition untagged (entry : json) : bool :=
  match entry with
  | JObj f => negb (is_str "Primary" (default JNull (assoc "presetTag" f)))
  | _ => false
  end.

(** An entry the extraction passes over: not tagged primary, or tagged
    primary with a file name that is missing or empty. *)
Definition passed_over (entry : json) : bool :=
  match entry with
  | JObj f =>
      negb (is_str "Primary" (default JNull (assoc "presetTag" f)))
      || negb (truthy (default JNull (assoc "fileName" f)))
  | _ => false
  end.

(** An answer to a file-listing request in which no primary file is found:
    no usable answer, an answer without a listing, or a listing whose entries
    all carry another tag. *)
Definition without_primary (answer : response) : bool :=
  match answer with
  | Body (JObj info) =>
      match assoc "data" info with
      | None => true
      | Some (JList files) => forallb untagged files
      | Some _ => false
      end
  | _ => true
  end.

(** A state file the monitor cannot use: missing, unreadable, not JSON, or
    JSON that is not an object. *)
Definition unusable (f : file) : bool :=
  match f with
  | Holds (Some (JObj _)) => false
  | _ => true
  end.

(** The answers to [GET /sources] on which the status check logs an error:
    no answer, a body that is not JSON, a body that is not a list, a list too
    short for the source id. *)
Definition unanswered (i : Z) (answer : response) : bool :=
  match answer with
  | RequestFailed | NotJson => true
  | Body (JList sources) =>
      negb ((0 <=? i) && (i <? Z.of_nat (length sources)))
  | Body _ => true
  end.

(** An answer to the job-list request that the client cannot use. *)
Definition fetch_failed (answer : response) : bool :=
  match answer with
  | Body (JList _) => false
  | _ => true
  end.

(** A request to the recorder. *)
Definition is_recorder (e : event) : bool :=
  match e with
  | Http GetSources | Http (PutRecordingName _ _)
  | Http (GetRecord _) | Http (GetStop _) => true
  | _ => false
  end.

(** An event of the fetch phase: a log line or a request to the primary
    system. *)
Definition not_recorder (e : event) : Prop := is_recorder e = false.

(** A snapshot as the scan of a cycle builds it: every key is a pair, and
    every value is a record with a non-empty basename and a logical name that
    is one of the ingest-id table or "Unknown Ingest". *)
Definition cycle_shaped (jobs : gmap (list atom) json) : Prop :=
  ∀ k v, jobs !! k = Some v →
    length k = 2%nat ∧
    ∃ b l, v = job_record b l ∧ b ≠ "" ∧
           (l = "Unknown Ingest" ∨ ∃ s, ingest_id_map !! s = Some l).

(** A key as [load_state] builds it: at least one component, each a string
    without the separator. *)
Definition loaded_key (k : list atom) : Prop :=
  k ≠ [] ∧ Forall (λ a, ∃ s, a = AStr s ∧ occurs "|" s = false) k.

(** An ingest id that the ingest-id table does not list and that is a
    string, or no id at all ([None], which is what an entry without
    ['ingestId'] gives). *)
Definition unlisted (ingest_id : json) : bool :=
  match ingest_id with
  | JNull => true
  | JStr s => match ingest_id_map !! s with None => true | Some _ => false end
  | _ => false
  end.

(** The job [j] of the ingest with key component [i] is in the set, under
    the pair of the two, with the record of an unknown ingest. *)
Definition kept (i : atom) (j b : string) (cur : gmap (list atom) json) : Prop :=
  cur !! [i; AStr j] = Some (job_record b "Unknown Ingest").

(** An event that is not a request to the primary system. *)
Definition not_primary (e : event) : Prop := is_primary e = false.

Section Vocabulary.
Context {World : Type}.
Abbreviation machine' := (@machine World).
Abbreviation M' := (@M World).

(** The machine after one request: only the network has moved. *)
Definition answered (m : machine') (w : World) : machine' :=
  Machine w (state_file m) (disk m) (previous_active_jobs m).

(** A computation is [quiet] when it leaves the state file, its
    writability and the stored snapshot alone: it can only talk to the
    network and the log. *)
Definition quiet {A} (c : M' A) : Prop :=
  ∀ m, state_file (final (c m)) = state_file m ∧
       disk (final (c m)) = disk m ∧
       previous_active_jobs (final (c m)) = previous_active_jobs m.

(** Every event a computation leaves satisfies [P]. *)
Definition emits (P : event → Prop) {A} (c : M' A) : Prop :=
  ∀ m, Forall P (emitted (c m)).

End Vocabulary.

(** ** Concrete scenes

    Small worlds and machines on which the properties are run. *)

Definition pcr1 : string := "9C64992CFF3A4A3FA3C635BB7D9B6071".

Definition show_key : list atom := [AStr pcr1; AStr "j1"].
Definition show_record : json := job_record "show_20240101" "PCR 1".
Definition show_running : gmap (list atom) json := {[ show_key := show_record ]}.

Definition show_listing : json :=
  JObj [("data",
         JList [JObj [("presetTag", JStr "Proxy"); ("fileName", JStr "show_20240101_lo.mp4")];
                JObj [("presetTag", JStr "Primary"); ("fileName", JStr "show_20240101.mp4")]])].

(** Two entries tagged primary; the first has an empty file name. *)
Definition twice_primary : list (string * json) :=
  [("data",
    JList [JObj [("presetTag", JStr "Primary"); ("fileName", JStr "")];
           JObj [("presetTag", JStr "Primary"); ("fileName", JStr "take.one.mov")];
           JObj [("presetTag", JStr "Primary"); ("fileName", JStr "other.mov")]])].

(** The primary system with one active job on "PCR 1". *)
Definition one_job (r : request) : response :=
  match r with
  | GetActiveJobs =>
      Body (JList [JObj [("ingestId", JStr pcr1);
                         ("activeJobsInfo", JList [JObj [("id", JStr "j1")]])]])
  | GetFiles _ _ => Body show_listing
  | _ => RequestFailed
  end.

(** The primary system out of reach. *)
Definition primary_down (r : request) : response := RequestFailed.

(** A listing without a primary file, for job "j2". *)
Definition no_primary (r : request) : response :=
  match r with
  | GetFiles _ _ =>
      Body (JObj [("data", JList [JObj [("presetTag", JStr "Proxy");
                                        ("fileName", JStr "clip_lo.mp4")]])])
  | _ => RequestFailed
  end.

(** The primary system with one active job on an ingest that the table
    does not know. *)
Definition stray_feed (r : request) : response :=
  match r with
  | GetActiveJobs =>
      Body (JList [JObj [("ingestId", JStr "FEED9");
                         ("activeJobsInfo", JList [JObj [("id", JStr "j7")]])]])
  | GetFiles _ _ =>
      Body (JObj [("data", JList [JObj [("presetTag", JStr "Primary");
                                        ("fileName", JStr "clip.mov")]])])
  | _ => RequestFailed
  end.

(** A recorder whose sources list is a list of numbers. *)
Definition odd_sources (r : request) : response :=
  match r with
  | GetSources => Body (JList [JNum 5])
  | _ => Body JNull
  end.

(** A recorder that answers nothing. *)
Definition recorder_down (r : request) : response := RequestFailed.

Definition all_idle : list bool := [false; false; false; false].
Definition first_recording : list bool := [true; false; false; false].

(** A fresh start: nothing stored, no state file, recorder idle. *)
Definition fresh : @machine (list bool) := Machine all_idle Absent Writable ∅.

(** The show is stored, saved and being recorded. *)
Definition recording_show : @machine (list bool) :=
  Machine first_recording
          (Holds (Some (JObj [(join "|" [pcr1; "j1"], show_record)])))
          Writable show_running.

(** A monitor at a scripted network, with a state file that is not JSON. *)
Definition garbled : @machine () := Machine () (Holds None) Writable show_running.

Definition at_script (jobs : gmap (list atom) json) : @machine () :=
  Machine () Absent Writable jobs.

(** A job of an ingest the table does not know. *)
Definition stray_key : list atom := [AStr "FEED9"; AStr "j7"].
Definition stray_record : json := job_record "clip" "Unknown Ingest".
Definition with_stray : gmap (list atom) json :=
  <[ stray_key := stray_record ]> show_running.

(** The primary system listing a number where an ingest entry should be. *)
Definition odd_entries (r : request) : response :=
  match r with
  | GetActiveJobs => Body (JList [JNum 5])
  | _ => RequestFailed
  end.

(** A recorder that lists an idle source and takes a name, and refuses
    everything else. *)
Definition refusing_recorder (r : request) : response :=
  match r with
  | GetSources => Body (JList [source_entry false])
  | PutRecordingName _ _ => Body JNull
  | _ => RequestFailed
  end.

(** A recorder whose source entries carry no recording flag. *)
Definition flagless (r : request) : response :=
  match r with
  | GetSources => Body (JList [JObj [("name", JStr "cam")]])
  | _ => Body JNull
  end.

(** A listing whose first primary file has a name that is only an
    extension, and one whose primary file has a number for a name. *)
Definition dot_file (r : request) : response :=
  match r with
  | GetFiles _ _ =>
      Body (JObj [("data", JList [JObj [("presetTag", JStr "Primary");
                                        ("fileName", JStr ".mov")];
                                  JObj [("presetTag", JStr "Primary");
                                        ("fileName", JStr "real.mov")]])])
  | _ => RequestFailed
  end.

Definition numbered_file (r : request) : response :=
  match r with
  | GetFiles _ _ =>
      Body (JObj [("data", JList [JObj [("presetTag", JStr "Primary");
                                        ("fileName", JNum 7)]])])
  | _ => RequestFailed
  end.

(** The show under a new basename, a job whose id is a number, and a job
    whose ingest id holds the separator. *)
Definition show_renamed : gmap (list atom) json :=
  {[ show_key := job_record "show_20240102" "PCR 1" ]}.

Definition numbered_key : list atom := [AStr pcr1; ANum 7].
Definition numbered_job : gmap (list atom) json := {[ numbered_key := show_record ]}.

Definition barred_key : list atom := [AStr "ing|1"; AStr "j1"].
Definition barred_job : gmap (list atom) json := {[ barred_key := show_record ]}.

(** A monitor whose state directory exists while the file cannot be
    written. *)
Definition read_only : @machine (list bool) := Machine all_idle Absent NoWrite ∅.

(** The primary system with one active job on an entry that carries no
    ingest id. *)
Definition nameless_feed (r : request) : response :=
  match r with
  | GetActiveJobs =>
      Body (JList [JObj [("activeJobsInfo", JList [JObj [("id", JStr "j7")]])]])
  | GetFiles _ _ =>
      Body (JObj [("data", JList [JObj [("presetTag", JStr "Primary");
                                        ("fileName", JStr "clip.mov")]])])
  | _ => RequestFailed
  end.

(** * Properties *)

(** ** Strings and keys *)

Lemma split_no_sep c s : occurs c s = false → split c s = [s].
Proof.
  induction s as [|a s IH]; simpl; [done|].
  destruct (Ascii.eqb a c); simpl; [done|].
  intros Hs. by rewrite IH.
Qed.

Lemma split_app_sep c a rest :
  occurs c a = false → split c (a +:+ String c rest) = a :: split c rest.
Proof.
  induction a as [|x a IH]; simpl.
  - intros _. by rewrite Ascii.eqb_refl.
  - destruct (Ascii.eqb x c); simpl; [done|].
    intros Ha. by rewrite IH.
Qed.

Lemma split_join_pair c a b :
  occurs c a = false → occurs c b = false → split c (join c [a; b]) = [a; b].
Proof.
  intros Ha Hb. simpl. rewrite split_app_sep by done. by rewrite split_no_sep.
Qed.

Lemma before_last_none c s : occurs c s = false → before_last c s = None.
Proof.
  induction s as [|a s IH]; simpl; [done|].
  destruct (Ascii.eqb a c); simpl; [done|].
  intros Hs. by rewrite IH.
Qed.

Lemma before_last_app c p x :
  occurs c x = false → before_last c (p +:+ String c x) = Some p.
Proof.
  intros Hx. induction p as [|a p IH]; simpl.
  - by rewrite before_last_none, Ascii.eqb_refl.
  - by rewrite IH.
Qed.

Lemma rsplit1_head_no_dot s : occurs "." s = false → rsplit1_head "." s = s.
Proof. intros Hs. unfold rsplit1_head. by rewrite before_last_none. Qed.

Lemma rsplit1_head_ext p x :
  occurs "." x = false → rsplit1_head "." (p +:+ String "." x) = p.
Proof. intros Hx. unfold rsplit1_head. by rewrite before_last_app. Qed.

Lemma plain_key_join k :
  plain_key k → ∃ s, join_key k = Some s ∧ split_key s = k.
Proof.
  intros (a & b & -> & Ha & Hb). exists (join "|" [a; b]). split; [done|].
  unfold split_key. by rewrite split_join_pair.
Qed.

(** ** Joining and splitting the keys of a snapshot *)

Lemma join_items_plain (l : list (list atom * json)) :
  Forall (λ kv, plain_key kv.1) l →
  ∃ L, mapM join_item l = Some L ∧ split_item <$> L = l.
Proof.
  induction 1 as [|[k v] l Hk _ (L & HL & Hback)].
  - by exists [].
  - destruct (plain_key_join k Hk) as (s & Hs & Hsplit).
    exists ((s, v) :: L). split.
    + change (mapM join_item ((k, v) :: l))
        with (y ← join_item (k, v); r ← mapM join_item l; mret (y :: r)).
      assert (Hitem : join_item (k, v) = Some (s, v))
        by (unfold join_item; simpl; by rewrite Hs).
      by rewrite Hitem, HL.
    + rewrite fmap_cons, Hback. unfold split_item. simpl. by rewrite Hsplit.
Qed.

Lemma split_items_keys (L : list (string * json)) :
  (split_item <$> L).*1 = split_key <$> L.*1.
Proof. by rewrite <- !list_fmap_compose. Qed.

Lemma joined_plain (jobs : gmap (list atom) json) :
  (∀ k, k ∈ dom jobs → plain_key k) →
  ∃ L, joined jobs = Some (list_to_map L) ∧ NoDup L.*1 ∧
       split_item <$> L = map_to_list jobs.
Proof.
  intros Hplain.
  destruct (join_items_plain (map_to_list jobs)) as (L & HL & Hback).
  { apply Forall_forall. intros [k v] Hkv. apply Hplain.
    apply elem_of_map_to_list in Hkv. apply elem_of_dom. by exists v. }
  exists L. split; [|split; [|done]].
  - unfold joined. by rewrite HL.
  - apply (NoDup_fmap_1 split_key). rewrite <- split_items_keys, Hback.
    apply NoDup_fst_map_to_list.
Qed.

(** Reading back what [joined] wrote gives the snapshot again. *)
Lemma split_joined (jobs : gmap (list atom) json) (data : gmap string json) :
  (∀ k, k ∈ dom jobs → plain_key k) →
  joined jobs = Some data →
  list_to_map (split_item <$> map_to_list data) = jobs.
Proof.
  intros Hplain Hdata.
  destruct (joined_plain jobs Hplain) as (L & HL & Hnodup & Hback).
  rewrite Hdata in HL. injection HL as ->.
  transitivity (list_to_map (map_to_list jobs) : gmap (list atom) json);
    [|apply list_to_map_to_list].
  rewrite <- Hback.
  apply list_to_map_proper.
  - rewrite split_items_keys. 
    assert (Hp : (map_to_list (list_to_map L : gmap string json)).*1 ≡ₚ L.*1)
      by (by rewrite map_to_list_to_map).
    rewrite Hp. rewrite <- split_items_keys, Hback. apply NoDup_fst_map_to_list.
  - by rewrite map_to_list_to_map.
Qed.
Lemma split_nonempty c s : split c s ≠ [].
Proof.
  destruct s as [|a s]; simpl; [done|].
  destruct (Ascii.eqb a c); [done|]. by destruct (split c s).
Qed.

Lemma join_cons_char c a w ws : join c (String a w :: ws) = String a (join c (w :: ws)).
Proof. by destruct ws. Qed.

Lemma join_split c s : join c (split c s) = s.
Proof.
  induction s as [|a s IH]; [done|]. simpl.
  destruct (Ascii.eqb_spec a c) as [->|Hne].
  - pose proof (split_nonempty c s) as Hne.
    destruct (split c s) as [|w ws] eqn:Hs; [done|].
    change (join c ("" :: w :: ws)) with (String c (join c (w :: ws))).
    by rewrite IH.
  - pose proof (split_nonempty c s) as Hnil.
    destruct (split c s) as [|w ws] eqn:Hs; [done|].
    by rewrite join_cons_char, IH.
Qed.

Lemma split_key_inj s t : split_key s = split_key t → s = t.
Proof.
  unfold split_key. intros Heq.
  assert (Hinj : Inj (=) (=) AStr) by (by intros ?? [=]).
  apply (inj (fmap AStr)) in Heq.
  by rewrite <- (join_split "|" s), <- (join_split "|" t), Heq.
Qed.

Lemma assoc_lookup (s : string) (l : list (string * json)) :
  assoc s l = (list_to_map l : gmap string json) !! s.
Proof.
  induction l as [|[k v] l IH]; [done|]. simpl.
  destruct (String.eqb_spec s k) as [->|Hne].
  - by rewrite lookup_insert_eq.
  - by rewrite lookup_insert_ne.
Qed.

Lemma assoc_map_to_list (s : string) (data : gmap string json) :
  assoc s (map_to_list data) = data !! s.
Proof. by rewrite assoc_lookup, list_to_map_to_list. Qed.

Lemma join_item_Some kv sv :
  join_item kv = Some sv → join_key kv.1 = Some sv.1 ∧ kv.2 = sv.2.
Proof.
  unfold join_item. destruct (join_key kv.1) as [s|]; [|done].
  by intros [= <-].
Qed.

(** What stands under the joined key of [k] in the saved map, when no other
    key joins to the same string. *)
Lemma joined_lookup (jobs : gmap (list atom) json) data k v s :
  joined jobs = Some data →
  jobs !! k = Some v →
  join_key k = Some s →
  unambiguous jobs k →
  data !! s = Some v.
Proof.
  unfold joined. intros Hdata Hk Hs Hone.
  destruct (mapM join_item (map_to_list jobs)) as [L|] eqn:HL; [|done].
  injection Hdata as <-. apply mapM_Some in HL.
  apply elem_of_list_to_map_1'.
  - intros y [n Hn]%list_elem_of_lookup.
    destruct (Forall2_lookup_r _ _ _ _ _ HL Hn) as ([k' v'] & Hn' & Hitem).
    apply join_item_Some in Hitem as [Hk' Hv']. simpl in Hk', Hv'. subst y.
    assert (Hin : jobs !! k' = Some v').
    { apply elem_of_map_to_list, list_elem_of_lookup. by exists n. }
    assert (k' = k) as ->.
    { apply Hone; [apply elem_of_dom; by eexists|congruence]. }
    congruence.
  - apply elem_of_map_to_list, list_elem_of_lookup in Hk as [n Hn].
    destruct (Forall2_lookup_l _ _ _ _ _ HL Hn) as ([s' v'] & Hn' & Hitem).
    apply join_item_Some in Hitem as [Hk' Hv']. simpl in Hk', Hv'.
    rewrite Hs in Hk'. injection Hk' as <-. subst v'.
    apply list_elem_of_lookup. by exists n.
Qed.

Lemma joined_recorded (jobs : gmap (list atom) json) :
  recorded jobs → is_Some (joined jobs).
Proof.
  intros Hrec. unfold joined.
  destruct (mapM join_item (map_to_list jobs)) as [L|] eqn:HL; [by eexists|].
  assert (Hsome : is_Some (mapM join_item (map_to_list jobs))).
  { apply mapM_is_Some, Forall_forall. intros [k v] Hkv%elem_of_map_to_list.
    destruct (Hrec k v Hkv) as [[s Hs] _].
    exists (s, v). unfold join_item. simpl. by rewrite Hs. }
  rewrite HL in Hsome. by destruct Hsome.
Qed.

Lemma status_items (l : list (list atom * json)) L :
  Forall (λ kv, ∃ b n, kv.2 = job_record b n) l →
  mapM join_item l = Some L →
  mapM status_item l = Ret L.
Proof.
  intros Hall. revert L. induction Hall as [|[k v] l (b & n & Hv) _ IH]; intros L.
  - by intros [= <-].
  - simpl in Hv. subst v.
    change (mapM join_item ((k, job_record b n) :: l))
      with (y ← join_item (k, job_record b n); r ← mapM join_item l; mret (y :: r)).
    change (mapM status_item ((k, job_record b n) :: l))
      with (y ← status_item (k, job_record b n); r ← mapM status_item l; mret (y :: r)).
    destruct (join_key k) as [s|] eqn:Hk.
    + assert (Hj : join_item (k, job_record b n) = Some (s, job_record b n))
        by (unfold join_item; simpl; by rewrite Hk).
      assert (Hs : status_item (k, job_record b n) = Ret (s, job_record b n))
        by (unfold status_item; simpl; by rewrite Hk).
      rewrite Hj, Hs.
      destruct (mapM join_item l) as [L'|]; [|done].
      intros [= <-]. by rewrite (IH L' eq_refl).
    + assert (Hj : join_item (k, job_record b n) = None)
        by (unfold join_item; simpl; by rewrite Hk).
      by rewrite Hj.
Qed.

(** On such a snapshot the status surface shows what a save writes. *)
Lemma status_is_joined jobs data :
  recorded jobs → joined jobs = Some data → get_current_status jobs = Ret data.
Proof.
  intros Hsnap. unfold joined, get_current_status.
  destruct (mapM join_item (map_to_list jobs)) as [L|] eqn:HL; [|done].
  intros [= <-]. rewrite (status_items _ L); [done| |done].
  apply Forall_forall. intros [k v] Hkv%elem_of_map_to_list.
  by destruct (Hsnap k v Hkv).
Qed.

(** ** Basename extraction *)

Lemma untagged_passed_over entry : untagged entry = true → passed_over entry = true.
Proof. destruct entry; simpl; try done. intros ->. done. Qed.

Lemma first_primary_skip pre rest :
  forallb passed_over pre = true → first_primary (pre ++ rest) = first_primary rest.
Proof.
  induction pre as [|entry pre IH]; [done|].
  simpl. intros [Hentry Hpre]%andb_prop. 
  destruct entry as [| | | | |f]; try done. simpl in *.
  destruct (is_str "Primary" (default JNull (assoc "presetTag" f))); simpl in *.
  - destruct (truthy (default JNull (assoc "fileName" f))); [done|]. by apply IH.
  - by apply IH.
Qed.

Lemma first_primary_hit f s rest :
  assoc "presetTag" f = Some (JStr "Primary") →
  assoc "fileName" f = Some (JStr s) →
  s ≠ "" →
  first_primary (JObj f :: rest) = Ret (Some (rsplit1_head "." s)).
Proof.
  intros Htag Hname Hs. simpl. rewrite Htag, Hname. simpl.
  destruct (String.eqb_spec s ""); done.
Qed.

Lemma first_primary_none files :
  forallb untagged files = true → first_primary files = Ret None.
Proof.
  intros Hall. rewrite <- (app_nil_r files). rewrite first_primary_skip; [done|].
  apply forallb_forall. intros entry Hin. apply untagged_passed_over.
  by eapply forallb_forall in Hall.
Qed.

Lemma extract_listing info files :
  assoc "data" info = Some (JList files) →
  extract_primary_file_basename (JObj info) = first_primary files.
Proof. intros Hdata. unfold extract_primary_file_basename. simpl. by rewrite Hdata. Qed.

(** C10.  With several entries tagged primary, the extraction returns the
    basename of the first one, in list order, that has a non-empty file
    name; entries before it that are tagged primary but have a missing or
    empty file name are passed over, as are entries with another tag, and
    what follows it does not matter. *)
Theorem first_named_primary_wins info pre f post s :
  assoc "data" info = Some (JList (pre ++ JObj f :: post)) →
  forallb passed_over pre = true →
  assoc "presetTag" f = Some (JStr "Primary") →
  assoc "fileName" f = Some (JStr s) →
  s ≠ "" →
  extract_primary_file_basename (JObj info) = Ret (Some (rsplit1_head "." s)).
Proof.
  intros Hdata Hpre Htag Hname Hs.
  rewrite (extract_listing _ _ Hdata), first_primary_skip by done.
  by apply first_primary_hit.
Qed.

(** ** More on splitting and joining *)

Lemma split_parts_clean c s : Forall (λ w, occurs c w = false) (split c s).
Proof.
  induction s as [|a s IH]; simpl; [by repeat constructor|].
  destruct (Ascii.eqb a c) eqn:Hac; [by constructor|].
  destruct (split c s) as [|w ws]; [by repeat constructor; simpl; rewrite Hac|].
  apply Forall_cons in IH as [Hw Hws]. constructor; [|done].
  simpl. by rewrite Hac.
Qed.

Lemma split_app c a b : split c (a +:+ String c b) = split c a ++ split c b.
Proof.
  induction a as [|x a IH]; simpl.
  - by rewrite Ascii.eqb_refl.
  - rewrite IH. destruct (Ascii.eqb x c); [done|].
    pose proof (split_nonempty c a) as Hne. by destruct (split c a).
Qed.

Lemma split_twice c s : occurs c s = true → (2 ≤ length (split c s))%nat.
Proof.
  induction s as [|a s IH]; simpl; [done|].
  destruct (Ascii.eqb a c); simpl.
  - intros _. pose proof (split_nonempty c s). destruct (split c s); simpl; [done|lia].
  - intros Hs. specialize (IH Hs). destruct (split c s); simpl in *; lia.
Qed.

Lemma split_key_loaded s : loaded_key (split_key s).
Proof.
  unfold loaded_key, split_key. split.
  - pose proof (split_nonempty "|" s). by destruct (split "|" s).
  - apply Forall_fmap. eapply Forall_impl; [apply split_parts_clean|].
    intros w Hw. by exists w.
Qed.

Lemma join_split_key s : join_key (split_key s) = Some s.
Proof.
  unfold join_key, split_key.
  assert (Hm : ∀ l, mapM atom_str (AStr <$> l) = Some l).
  { induction l as [|w l IH]; [done|].
    change (mapM atom_str (AStr <$> w :: l))
      with (y ← atom_str (AStr w); r ← mapM atom_str (AStr <$> l); mret (y :: r)).
    by rewrite IH. }
  rewrite Hm. simpl. by rewrite join_split.
Qed.

(** A key of two strings, one of which holds the separator, comes back
    from the join and the split with more than two components. *)
Lemma split_joined_pair_long a b :
  occurs "|" a || occurs "|" b = true →
  (2 < length (split_key (join "|" [a; b])))%nat.
Proof.
  intros Hsep. unfold split_key. rewrite length_fmap. simpl.
  rewrite split_app, length_app.
  pose proof (split_nonempty "|" a). pose proof (split_nonempty "|" b).
  apply orb_true_iff in Hsep as [Ha|Hb].
  - pose proof (split_twice _ _ Ha). destruct (split "|" b); simpl; [done|lia].
  - pose proof (split_twice _ _ Hb). destruct (split "|" a); simpl; [done|lia].
Qed.

(** What stands under a split key after the comprehension of [load_state]. *)
Lemma lookup_split_items (l : list (string * json)) s :
  (list_to_map (split_item <$> l) : gmap (list atom) json) !! split_key s
  = (list_to_map l : gmap string json) !! s.
Proof.
  induction l as [|[k v] l IH]; [done|].
  rewrite fmap_cons. unfold split_item at 1. cbn [fst snd list_to_map foldr].
  change (foldr _ _ (split_item <$> l))
    with (list_to_map (split_item <$> l) : gmap (list atom) json).
  destruct (decide (k = s)) as [->|Hne].
  - by rewrite !lookup_insert_eq.
  - rewrite !lookup_insert_ne; [done|done|]. by intros ?%split_key_inj.
Qed.

Lemma dom_split_items (l : list (string * json)) k :
  k ∈ dom (list_to_map (split_item <$> l) : gmap (list atom) json) → loaded_key k.
Proof.
  intros [v Hk]%elem_of_dom. apply elem_of_list_to_map_2 in Hk.
  apply list_elem_of_fmap in Hk as ([s v'] & [= -> _] & _). apply split_key_loaded.
Qed.

Lemma joined_None (jobs : gmap (list atom) json) k :
  k ∈ dom jobs → join_key k = None → joined jobs = None.
Proof.
  intros [v Hk]%elem_of_dom Hjoin. unfold joined.
  destruct (mapM join_item (map_to_list jobs)) as [L|] eqn:HL; [|done].
  assert (Hall : is_Some (mapM join_item (map_to_list jobs))) by by eexists.
  apply mapM_is_Some in Hall. rewrite Forall_forall in Hall.
  destruct (Hall (k, v)) as [sv Hsv]; [by apply elem_of_map_to_list|].
  apply join_item_Some in Hsv as [Hs _]. simpl in Hs. congruence.
Qed.

Lemma joined_strings (jobs : gmap (list atom) json) :
  (∀ k, k ∈ dom jobs → is_Some (join_key k)) → is_Some (joined jobs).
Proof.
  intros Hkeys. unfold joined.
  assert (Hsome : is_Some (mapM join_item (map_to_list jobs))).
  { apply mapM_is_Some, Forall_forall. intros [k v] Hkv%elem_of_map_to_list.
    destruct (Hkeys k) as [s Hs]; [apply elem_of_dom; by eexists|].
    exists (s, v). unfold join_item. simpl. by rewrite Hs. }
  destruct Hsome as [L ->]. by eexists.
Qed.

(** A comprehension in the exception monad raises when one of its items
    does. *)
Lemma res_mapM_raises {A B} (f : A → res B) (l : list A) x :
  x ∈ l → (∃ e, f x = Raise e) → ∃ e, mapM f l = Raise e.
Proof.
  intros Hx Hf. induction l as [|y l IH]; [by apply elem_of_nil in Hx|].
  change (mapM f (y :: l)) with (z ← f y; r ← mapM f l; mret (z :: r)).
  destruct (f y) as [z|e] eqn:Hy; [|by exists e].
  apply elem_of_cons in Hx as [->|Hx].
  - destruct Hf as [e He]. congruence.
  - destruct (IH Hx) as [e He]. exists e. by rewrite He.
Qed.

(** ** Running the monad *)

Section Properties.
Context {World : Type}.
Variable http : request → World → response * World.

Abbreviation machine := (@machine World).
Abbreviation M := (@M World).
Abbreviation outcome := (@outcome World).
Abbreviation quiet := (@quiet World _).
Abbreviation emits P := (@emits World P _).

Lemma bind_Ret {A B} (c : M A) (k : A → M B) (m : machine) a :
  result (c m) = Ret a →
  result ((c ≫= k) m) = result (k a (final (c m))) ∧
  final ((c ≫= k) m) = final (k a (final (c m))) ∧
  emitted ((c ≫= k) m) = emitted (c m) ++ emitted (k a (final (c m))).
Proof.
  intros Hc. unfold mbind, M_bind, bind. by rewrite Hc.
Qed.

Lemma bind_Raise {A B} (c : M A) (k : A → M B) (m : machine) e :
  result (c m) = Raise e →
  result ((c ≫= k) m) = Raise e ∧
  final ((c ≫= k) m) = final (c m) ∧
  emitted ((c ≫= k) m) = emitted (c m).
Proof.
  intros Hc. unfold mbind, M_bind, bind. by rewrite Hc.
Qed.

Lemma bind_Ret_result {A B} (c : M A) (k : A → M B) (m : machine) a :
  result (c m) = Ret a → result ((c ≫= k) m) = result (k a (final (c m))).
Proof. intros Hc. by destruct (bind_Ret c k m a Hc) as (? & ? & ?). Qed.

Lemma bind_Ret_final {A B} (c : M A) (k : A → M B) (m : machine) a :
  result (c m) = Ret a → final ((c ≫= k) m) = final (k a (final (c m))).
Proof. intros Hc. by destruct (bind_Ret c k m a Hc) as (? & ? & ?). Qed.

Lemma bind_Ret_emitted {A B} (c : M A) (k : A → M B) (m : machine) a :
  result (c m) = Ret a →
  emitted ((c ≫= k) m) = emitted (c m) ++ emitted (k a (final (c m))).
Proof. intros Hc. by destruct (bind_Ret c k m a Hc) as (? & ? & ?). Qed.

Lemma bind_Raise_result {A B} (c : M A) (k : A → M B) (m : machine) e :
  result (c m) = Raise e → result ((c ≫= k) m) = Raise e.
Proof. intros Hc. by destruct (bind_Raise c k m e Hc) as (? & ? & ?). Qed.

Lemma bind_Raise_final {A B} (c : M A) (k : A → M B) (m : machine) e :
  result (c m) = Raise e → final ((c ≫= k) m) = final (c m).
Proof. intros Hc. by destruct (bind_Raise c k m e Hc) as (? & ? & ?). Qed.

Lemma bind_Raise_emitted {A B} (c : M A) (k : A → M B) (m : machine) e :
  result (c m) = Raise e → emitted ((c ≫= k) m) = emitted (c m).
Proof. intros Hc. by destruct (bind_Raise c k m e Hc) as (? & ? & ?). Qed.

Lemma bind_Ret_inv {A B} (c : M A) (k : A → M B) (m : machine) b :
  result ((c ≫= k) m) = Ret b →
  ∃ a, result (c m) = Ret a ∧ result (k a (final (c m))) = Ret b.
Proof.
  unfold mbind, M_bind, bind. destruct (result (c m)) as [a|e] eqn:Hc; [|done].
  simpl. intros Hk. by exists a.
Qed.

Lemma quiet_ret {A} (a : A) : quiet (mret a).
Proof. by intros m. Qed.

Lemma quiet_lift {A} (r : res A) : quiet (lift r).
Proof. by intros m. Qed.

Lemma quiet_logging l msg : quiet (logging l msg).
Proof. by intros m. Qed.

Lemma quiet_send r : quiet (send http r).
Proof. intros m. unfold send. by destruct (http r (net m)). Qed.

Lemma quiet_bind {A B} (c : M A) (k : A → M B) :
  quiet c → (∀ a, quiet (k a)) → quiet (c ≫= k).
Proof.
  intros Hc Hk m. destruct (Hc m) as (Hf & Hw & Hp).
  destruct (result (c m)) as [a|e] eqn:Hr.
  - destruct (bind_Ret c k m a Hr) as (_ & -> & _).
    destruct (Hk a (final (c m))) as (-> & -> & ->). done.
  - destruct (bind_Raise c k m e Hr) as (_ & -> & _). done.
Qed.

Lemma quiet_foldM {A B} (f : A → B → M A) l :
  (∀ a x, quiet (f a x)) → ∀ a, quiet (foldM f a l).
Proof.
  intros Hf. induction l as [|x l IH]; intros a; simpl.
  - apply quiet_ret.
  - apply quiet_bind; [apply Hf|apply IH].
Qed.

Lemma quiet_forM_ {B} (f : B → M ()) l :
  (∀ x, quiet (f x)) → quiet (forM_ f l).
Proof.
  intros Hf. induction l as [|x l IH]; simpl.
  - apply quiet_ret.
  - apply quiet_bind; [apply Hf|intros _; apply IH].
Qed.

Lemma emits_ret P {A} (a : A) : emits P (mret a).
Proof. intros m. constructor. Qed.

Lemma emits_lift P {A} (r : res A) : emits P (lift r).
Proof. intros m. constructor. Qed.

Lemma emits_logging (P : event → Prop) l msg :
  P (Log l msg) → emits P (logging l msg).
Proof. intros HP m. by repeat constructor. Qed.

Lemma emits_send (P : event → Prop) r : P (Http r) → emits P (send http r).
Proof.
  intros HP m. unfold send. destruct (http r (net m)). by repeat constructor.
Qed.

Lemma emits_bind P {A B} (c : M A) (k : A → M B) :
  emits P c → (∀ a, emits P (k a)) → emits P (c ≫= k).
Proof.
  intros Hc Hk m. destruct (result (c m)) as [a|e] eqn:Hr.
  - destruct (bind_Ret c k m a Hr) as (_ & _ & ->).
    apply Forall_app. split; [apply Hc|apply Hk].
  - destruct (bind_Raise c k m e Hr) as (_ & _ & ->). apply Hc.
Qed.

Lemma emits_forM_ P {B} (f : B → M ()) l :
  (∀ x, emits P (f x)) → emits P (forM_ f l).
Proof.
  intros Hf. induction l as [|x l IH]; simpl.
  - apply emits_ret.
  - apply emits_bind; [apply Hf|intros _; apply IH].
Qed.

(** Rewrite the three readings of a bind whose first part is known to
    return, or to raise. *)
Ltac returns H :=
  rewrite ?(bind_Ret_result _ _ _ _ H), ?(bind_Ret_final _ _ _ _ H),
    ?(bind_Ret_emitted _ _ _ _ H).

Ltac raises H :=
  rewrite ?(bind_Raise_result _ _ _ _ H), ?(bind_Raise_final _ _ _ _ H),
    ?(bind_Raise_emitted _ _ _ _ H).

Ltac branches :=
  repeat match goal with
    | |- quiet (match ?x with _ => _ end) => destruct x
    | |- emits _ (match ?x with _ => _ end) => destruct x
    end.

Ltac quiet_steps :=
  repeat first
    [ apply quiet_ret | apply quiet_lift | apply quiet_logging
    | apply quiet_send
    | apply quiet_bind; [|intros ?]
    | progress branches ].

Ltac emits_steps :=
  repeat first
    [ apply emits_ret | apply emits_lift
    | apply emits_logging; done | apply emits_send; done
    | apply emits_bind; [|intros ?]
    | progress branches ].

Lemma quiet_is_dvr_recording i : quiet (is_dvr_recording http i).
Proof. unfold is_dvr_recording. quiet_steps. Qed.

Lemma quiet_start b l : quiet (start_secondary_recording http b l).
Proof.
  unfold start_secondary_recording. quiet_steps.
Qed.

Lemma quiet_stop b l : quiet (stop_secondary_recording http b l).
Proof.
  unfold stop_secondary_recording. quiet_steps.
Qed.

Lemma quiet_start_job cur key : quiet (start_job http cur key).
Proof. unfold start_job. quiet_steps. Qed.

Lemma quiet_stop_job prev key : quiet (stop_job http prev key).
Proof. unfold stop_job. quiet_steps. Qed.

Lemma recorder_only_is_dvr_recording i :
  emits not_primary (is_dvr_recording http i).
Proof. unfold is_dvr_recording. emits_steps. Qed.

Lemma recorder_only_start b l :
  emits not_primary (start_secondary_recording http b l).
Proof.
  unfold start_secondary_recording. emits_steps.
Qed.

Lemma recorder_only_stop b l :
  emits not_primary (stop_secondary_recording http b l).
Proof.
  unfold stop_secondary_recording. emits_steps.
Qed.

(** ** State store *)

Lemma save_state_writes (m : machine) data :
  disk m = Writable →
  joined (previous_active_jobs m) = Some data →
  save_state m =
    Outcome (Ret ())
            (Machine (net m) (Holds (Some (JObj (map_to_list data))))
                     (disk m) (previous_active_jobs m))
            [].
Proof.
  intros Hw Hdata.
  unfold save_state, mbind, M_bind, bind, read_disk, get_previous, write_file.
  simpl. rewrite Hw. simpl. rewrite Hdata. simpl. by rewrite Hw.
Qed.

Lemma load_state_object (m : machine) data :
  state_file m = Holds (Some (JObj data)) →
  result (load_state m) = Ret () ∧
  previous_active_jobs (final (load_state m)) = list_to_map (split_item <$> data).
Proof.
  intros Hf. unfold load_state, mbind, M_bind, bind. simpl. by rewrite Hf.
Qed.

(** C3.  Saving a snapshot whose keys are pairs of identifier strings
    without the separator ['|'] and loading the file again, in a process
    that starts from any other in-memory snapshot, gives back exactly the
    snapshot that was saved; the empty snapshot is one of them.  The save
    is one that the file system lets through. *)
Theorem save_load_roundtrip (m : machine) (stale : gmap (list atom) json) :
  disk m = Writable →
  (∀ k, k ∈ dom (previous_active_jobs m) → plain_key k) →
  let saved := final (save_state m) in
  let restarted :=
    Machine (net saved) (state_file saved) (disk saved) stale in
  result (save_state m) = Ret () ∧
  result (load_state restarted) = Ret () ∧
  previous_active_jobs (final (load_state restarted)) = previous_active_jobs m.
Proof.
  intros Hw Hplain.
  destruct (joined_plain _ Hplain) as (L & Hdata & _).
  cbv zeta. rewrite (save_state_writes m _ Hw Hdata). cbn [final result net state_file disk].
  split; [done|].
  match goal with |- context [load_state ?r] =>
    destruct (load_state_object r (map_to_list (list_to_map L : gmap string json)) eq_refl)
      as [Hr Hp] end.
  split; [done|]. rewrite Hp. by apply split_joined.
Qed.

Lemma load_state_total (m : machine) : result (load_state m) = Ret ().
Proof.
  unfold load_state, mbind, M_bind, bind. simpl.
  by destruct (state_file m) as [| |[[]|]].
Qed.

(** ** Secondary recorder client *)

Lemma outcome_eq {A} (o : outcome A) r f e :
  result o = r → final o = f → emitted o = e → o = Outcome r f e.
Proof. destruct o. simpl. by intros -> -> ->. Qed.

Lemma send_run (r : request) (m : machine) answer w :
  http r (net m) = (answer, w) →
  send http r m = Outcome (Ret answer) (answered m w) [Http r].
Proof. intros Hr. unfold send. by rewrite Hr. Qed.

(** The status check issues one request and nothing else on the network. *)
Lemma is_dvr_recording_final (i : Z) (m : machine) :
  final (is_dvr_recording http i m) = answered m (http GetSources (net m)).2.
Proof.
  unfold is_dvr_recording.
  destruct (http GetSources (net m)) as [answer w] eqn:Hs.
  pose proof (send_run _ _ _ _ Hs) as Hsend.
  assert (H : result (send http GetSources m) = Ret answer) by by rewrite Hsend.
  returns H. rewrite Hsend. simpl.
  destruct answer as [| |[]]; try done.
  destruct (_ && _); [|done]. by destruct (_ !! _).
Qed.

Lemma is_dvr_recording_unanswered (i : Z) (m : machine) answer w :
  http GetSources (net m) = (answer, w) →
  unanswered i answer = true →
  ∃ msg, is_dvr_recording http i m =
           Outcome (Ret (JBool false)) (answered m w) [Http GetSources; Log Error msg].
Proof.
  intros Hs Hbad. unfold is_dvr_recording, mbind, M_bind, bind.
  rewrite (send_run _ _ _ _ Hs). simpl.
  destruct answer as [| |[]]; simpl in *; try by eexists.
  destruct (_ && _); [done|]. by eexists.
Qed.

(** What [start_secondary_recording] does once the source id is known and
    the status check has come back. *)
Lemma start_already_recording (b : json) (l : string) (i : Z) (m : machine) v :
  logical_name_to_dvr_source_id !! l = Some i →
  result (is_dvr_recording http i m) = Ret v →
  truthy v = true →
  start_secondary_recording http b (JStr l) m =
    Outcome (Ret ()) (final (is_dvr_recording http i m))
            (emitted (is_dvr_recording http i m) ++ [Log Info (AlreadyRecording (JStr l))]).
Proof.
  intros Hl Hv Ht. apply outcome_eq; unfold start_secondary_recording.
  all: assert (H0 : result (lift (table_get logical_name_to_dvr_source_id (JStr l)) m)
                    = Ret (Some i)) by (simpl; by rewrite Hl).
  all: returns H0; cbn [lift final emitted app]; returns Hv; by rewrite Ht.
Qed.

Lemma start_idle (b : json) (l : string) (i : Z) (m : machine) v named w :
  logical_name_to_dvr_source_id !! l = Some i →
  result (is_dvr_recording http i m) = Ret v →
  truthy v = false →
  http (PutRecordingName i b) (net (final (is_dvr_recording http i m))) = (named, w) →
  let checked := final (is_dvr_recording http i m) in
  let seen := emitted (is_dvr_recording http i m) in
  if succeeded named then
    let '(started, w') := http (GetRecord i) w in
    start_secondary_recording http b (JStr l) m =
      Outcome (Ret ()) (answered checked w')
        (seen ++ [Http (PutRecordingName i b);
                  Log Info (RecordingNameSet b (JStr l));
                  Http (GetRecord i);
                  if succeeded started
                  then Log Info (StartedRecording (JStr l))
                  else Log Error (FailedStartRecording (JStr l))])
  else
    start_secondary_recording http b (JStr l) m =
      Outcome (Ret ()) (answered checked w)
        (seen ++ [Http (PutRecordingName i b);
                  Log Error (FailedSetRecordingName (JStr l))]).
Proof.
  intros Hl Hv Ht Hput checked seen.
  assert (H0 : result (lift (table_get logical_name_to_dvr_source_id (JStr l)) m)
               = Ret (Some i)) by (simpl; by rewrite Hl).
  pose proof (send_run _ _ _ _ Hput) as Hsend. fold checked in Hsend.
  assert (H1 : result (send http (PutRecordingName i b) checked) = Ret named)
    by by rewrite Hsend.
  destruct (succeeded named) eqn:Hok.
  - destruct (http (GetRecord i) w) as [started w'] eqn:Hrec.
    assert (Hrec' : http (GetRecord i) (net (answered checked w)) = (started, w'))
      by done.
    pose proof (send_run _ _ _ _ Hrec') as Hsend'.
    apply outcome_eq; unfold start_secondary_recording.
    all: returns H0; cbn [lift final emitted app]; returns Hv; rewrite Ht.
    all: fold checked; fold seen; returns H1; rewrite Hsend, Hok.
    all: cbn [final emitted result].
    all: unfold mbind, M_bind, bind; simpl; rewrite Hsend'; simpl.
    all: by destruct (succeeded started).
  - apply outcome_eq; unfold start_secondary_recording.
    all: returns H0; cbn [lift final emitted app]; returns Hv; rewrite Ht.
    all: fold checked; fold seen; returns H1; rewrite Hsend, Hok; done.
Qed.

Lemma is_dvr_recording_requests (i : Z) (m : machine) :
  filter (λ e, is_http e = true) (emitted (is_dvr_recording http i m)) = [Http GetSources].
Proof.
  unfold is_dvr_recording, mbind, M_bind, bind.
  destruct (http GetSources (net m)) as [answer w] eqn:Hs.
  rewrite (send_run _ _ _ _ Hs). simpl.
  destruct answer as [| |[]]; try done.
  destruct (_ && _); [|done]. by destruct (_ !! _).
Qed.

Lemma stop_not_recording (b : json) (l : string) (i : Z) (m : machine) v :
  logical_name_to_dvr_source_id !! l = Some i →
  result (is_dvr_recording http i m) = Ret v →
  truthy v = false →
  stop_secondary_recording http b (JStr l) m =
    Outcome (Ret ()) (final (is_dvr_recording http i m))
            (emitted (is_dvr_recording http i m) ++ [Log Info (NotRecording (JStr l))]).
Proof.
  intros Hl Hv Ht. apply outcome_eq; unfold stop_secondary_recording.
  all: assert (H0 : result (lift (table_get logical_name_to_dvr_source_id (JStr l)) m)
                    = Ret (Some i)) by (simpl; by rewrite Hl).
  all: returns H0; cbn [lift final emitted app]; returns Hv; by rewrite Ht.
Qed.

Lemma start_unmapped (b : json) (l : string) (m : machine) :
  logical_name_to_dvr_source_id !! l = None →
  start_secondary_recording http b (JStr l) m =
    Outcome (Ret ()) m [Log Error (NoSourceId (JStr l))].
Proof.
  intros Hl. apply outcome_eq; unfold start_secondary_recording.
  all: assert (H0 : result (lift (table_get logical_name_to_dvr_source_id (JStr l)) m)
                    = Ret None) by (simpl; by rewrite Hl).
  all: by returns H0.
Qed.

Lemma stop_unmapped (b : json) (l : string) (m : machine) :
  logical_name_to_dvr_source_id !! l = None →
  stop_secondary_recording http b (JStr l) m =
    Outcome (Ret ()) m [Log Error (NoSourceId (JStr l))].
Proof.
  intros Hl. apply outcome_eq; unfold stop_secondary_recording.
  all: assert (H0 : result (lift (table_get logical_name_to_dvr_source_id (JStr l)) m)
                    = Ret None) by (simpl; by rewrite Hl).
  all: by returns H0.
Qed.

Lemma filter_snoc (P : event → Prop) `{∀ e, Decision (P e)} (l : list event) e :
  filter P (l ++ [e]) = filter P l ++ (if decide (P e) then [e] else []).
Proof. rewrite filter_app. f_equal. Qed.

(** Filtering for a kind of request can go through the requests. *)
Lemma filter_requests (P : event → Prop) `{∀ e, Decision (P e)} (es : list event) :
  (∀ e, P e → is_http e = true) →
  filter P es = filter P (filter (λ e, is_http e = true) es).
Proof.
  intros Hsub. induction es as [|e es IH]; [done|].
  rewrite !filter_cons. destruct (decide (P e)) as [HP|HP].
  - rewrite decide_True by by apply Hsub.
    rewrite filter_cons, decide_True by done. by rewrite IH.
  - destruct (decide (is_http e = true)); [|done].
    rewrite filter_cons, decide_False by done. done.
Qed.

Lemma start_is_request e : is_start e = true → is_http e = true.
Proof. by destruct e as [[]|]. Qed.

Lemma stop_is_request e : is_stop e = true → is_http e = true.
Proof. by destruct e as [[]|]. Qed.

Lemma put_is_request e : is_put e = true → is_http e = true.
Proof. by destruct e as [[]|]. Qed.

(** The status check issues no start, stop or name request. *)
Lemma is_dvr_recording_passive (P : event → Prop) `{∀ e, Decision (P e)} i (m : machine) :
  (∀ e, P e → is_http e = true) → ¬ P (Http GetSources) →
  filter P (emitted (is_dvr_recording http i m)) = [].
Proof.
  intros Hsub Hnot. rewrite filter_requests by done.
  rewrite is_dvr_recording_requests, filter_cons, decide_False by done. done.
Qed.

(** C4.  Start is idempotent against the recorder's live status.  For a
    logical name with a source id: whenever the status check reports the
    source as recording, start-recording logs that and returns; its only
    request is the status check, so neither the name PUT nor the record GET
    is issued.  Hence two start-recordings in a row for one source, the first
    on an idle source whose name the recorder accepts and the recorder then
    reporting the source as recording, issue exactly one record GET. *)
Theorem start_is_idempotent (b : json) (l : string) (i : Z) :
  logical_name_to_dvr_source_id !! l = Some i →
  (∀ (m : machine) v,
     result (is_dvr_recording http i m) = Ret v →
     truthy v = true →
     let o := start_secondary_recording http b (JStr l) m in
     result o = Ret () ∧
     filter (λ e, is_http e = true) (emitted o) = [Http GetSources] ∧
     last (emitted o) = Some (Log Info (AlreadyRecording (JStr l)))) ∧
  (∀ (m : machine) v0 named w v1,
     result (is_dvr_recording http i m) = Ret v0 →
     truthy v0 = false →
     http (PutRecordingName i b) (net (final (is_dvr_recording http i m))) = (named, w) →
     succeeded named = true →
     let first := start_secondary_recording http b (JStr l) m in
     result (is_dvr_recording http i (final first)) = Ret v1 →
     truthy v1 = true →
     let second := start_secondary_recording http b (JStr l) (final first) in
     filter (λ e, is_start e = true) (emitted first ++ emitted second) = [Http (GetRecord i)] ∧
     filter (λ e, is_put e = true) (emitted second) = [] ∧
     filter (λ e, is_start e = true) (emitted second) = []).
Proof.
  intros Hl. split.
  - intros m v Hv Ht o. subst o.
    rewrite (start_already_recording b l i m v Hl Hv Ht).
    cbn [result emitted]. split; [done|]. split; [|apply last_snoc].
    rewrite filter_snoc, is_dvr_recording_requests. done.
  - intros m v0 named w v1 Hv0 Ht0 Hput Hok first Hv1 Ht1 second.
    assert (Hsecond : ∀ P `{∀ e, Decision (P e)},
               (∀ e, P e → is_http e = true) → ¬ P (Http GetSources) →
               ¬ P (Log Info (AlreadyRecording (JStr l))) →
               filter P (emitted second) = []).
    { intros P ? Hsub Hnot Hlog. subst second.
      rewrite (start_already_recording b l i _ v1 Hl Hv1 Ht1). cbn [emitted].
      rewrite filter_snoc, is_dvr_recording_passive, decide_False by done. done. }
    assert (Hstart : filter (λ e, is_start e = true) (emitted second) = [])
      by (apply Hsecond; [apply start_is_request|done|done]).
    assert (Hputs : filter (λ e, is_put e = true) (emitted second) = [])
      by (apply Hsecond; [apply put_is_request|done|done]).
    split; [|done].
    rewrite filter_app, Hstart, app_nil_r.
    pose proof (start_idle b l i m v0 named w Hl Hv0 Ht0 Hput) as Hfirst.
    cbv zeta in Hfirst. rewrite Hok in Hfirst.
    destruct (http (GetRecord i) w) as [started w'].
    subst first. rewrite Hfirst. cbn [emitted].
    rewrite filter_app, is_dvr_recording_passive
      by (done || apply start_is_request).
    by destruct (succeeded started).
Qed.

(** C6, as the code has it.  The status check fails closed on the four
    conditions it logs: no answer from the recorder, a body that does not
    decode, a body that is not a list, and a source id outside the list.  It
    then logs an error and returns false, so a start for that source goes on
    to the name PUT; and when that PUT fails, the start logs the failure and
    returns without a record GET. *)
Theorem status_check_fails_closed (b : json) (l : string) (i : Z)
    (m : machine) answer w :
  logical_name_to_dvr_source_id !! l = Some i →
  http GetSources (net m) = (answer, w) →
  unanswered i answer = true →
  let start := start_secondary_recording http b (JStr l) m in
  (∃ msg, is_dvr_recording http i m =
            Outcome (Ret (JBool false)) (answered m w)
                    [Http GetSources; Log Error msg]) ∧
  result start = Ret () ∧
  (∃ msg rest, emitted start =
                 [Http GetSources; Log Error msg; Http (PutRecordingName i b)] ++ rest) ∧
  (∀ w', http (PutRecordingName i b) w = (RequestFailed, w') →
         (∃ msg, emitted start =
                   [Http GetSources; Log Error msg; Http (PutRecordingName i b);
                    Log Error (FailedSetRecordingName (JStr l))]) ∧
         filter (λ e, is_start e = true) (emitted start) = []).
Proof.
  intros Hl Hs Hbad start.
  destruct (is_dvr_recording_unanswered i m answer w Hs Hbad) as [msg Hchk].
  split; [by exists msg|].
  assert (Hv : result (is_dvr_recording http i m) = Ret (JBool false))
    by by rewrite Hchk.
  destruct (http (PutRecordingName i b) w) as [named w1] eqn:Hput.
  assert (Hput' : http (PutRecordingName i b)
                    (net (final (is_dvr_recording http i m))) = (named, w1))
    by by rewrite Hchk.
  pose proof (start_idle b l i m (JBool false) named w1 Hl Hv eq_refl Hput') as Hrun.
  cbv zeta in Hrun. rewrite Hchk in Hrun. cbn [final emitted] in Hrun.
  destruct (succeeded named) eqn:Hok.
  - destruct (http (GetRecord i) w1) as [started w2].
    subst start. rewrite Hrun. cbn [result emitted]. split; [done|]. split.
    + exists msg. eexists. reflexivity.
    + intros w' [= -> _]. done.
  - subst start. rewrite Hrun. cbn [result emitted]. split; [done|]. split.
    + exists msg. eexists. reflexivity.
    + intros w' _. split; [|done].
      exists msg. done.
Qed.

(** ** Reconciliation engine *)

Lemma save_state_keeps (m : machine) :
  result (save_state m) = Ret () ∧
  net (final (save_state m)) = net m ∧
  disk (final (save_state m)) = disk m ∧
  previous_active_jobs (final (save_state m)) = previous_active_jobs m.
Proof.
  unfold save_state, mbind, M_bind, bind, read_disk, get_previous, write_file.
  simpl. destruct (disk m) eqn:Hw; simpl; try done;
    by destruct (joined (previous_active_jobs m)).
Qed.

Lemma quiet_starts cur keys : quiet (forM_ (start_job http cur) keys).
Proof. apply quiet_forM_. intros key. apply quiet_start_job. Qed.

Lemma quiet_stops prev keys : quiet (forM_ (stop_job http prev) keys).
Proof. apply quiet_forM_. intros key. apply quiet_stop_job. Qed.

(** What the locked part of a cycle amounts to: the starts, then the
    stops, then the replacement of the snapshot and the save.  When a
    start or a stop raises, the snapshot and the state file stay as they
    were. *)
Lemma reconcile_run (cur : gmap (list atom) json) (m : machine) :
  let prev := previous_active_jobs m in
  let starts := forM_ (start_job http cur) (elements (new_jobs cur prev)) m in
  let stops :=
    forM_ (stop_job http prev) (elements (stopped_jobs cur prev)) (final starts) in
  let replaced :=
    Machine (net (final stops)) (state_file m) (disk m) cur in
  let o := reconcile http cur m in
  match result starts, result stops with
  | Ret _, Ret _ =>
      result o = Ret () ∧
      final o = final (save_state replaced) ∧
      emitted o = emitted starts ++ emitted stops ++ emitted (save_state replaced)
  | Ret _, Raise e =>
      result o = Raise e ∧ final o = final stops ∧
      emitted o = emitted starts ++ emitted stops
  | Raise e, _ =>
      result o = Raise e ∧ final o = final starts ∧ emitted o = emitted starts
  end.
Proof.
  intros prev starts stops replaced o. subst o. unfold reconcile.
  assert (H0 : result (get_previous m) = Ret prev) by done.
  returns H0. cbn [get_previous final emitted app]. fold prev. fold starts.
  destruct (quiet_starts cur (elements (new_jobs cur prev)) m) as (Hf1 & Hw1 & Hp1).
  fold starts in Hf1, Hw1, Hp1.
  destruct (result starts) as [[]|e1] eqn:Hs; [|by raises Hs].
  returns Hs. fold stops.
  destruct (quiet_stops prev (elements (stopped_jobs cur prev)) (final starts))
    as (Hf2 & Hw2 & Hp2).
  fold stops in Hf2, Hw2, Hp2.
  destruct (result stops) as [[]|e2] eqn:Ht; [|by raises Ht].
  returns Ht.
  assert (H3 : result (set_previous cur (final stops)) = Ret ()) by done.
  returns H3. cbn [set_previous final emitted app].
  rewrite Hf2, Hw2, Hf1, Hw1. fold replaced.
  by destruct (save_state_keeps replaced) as (-> & _).
Qed.

Lemma reconcile_stored (cur : gmap (list atom) json) (m : machine) :
  match result (reconcile http cur m) with
  | Ret _ => previous_active_jobs (final (reconcile http cur m)) = cur
  | Raise _ =>
      previous_active_jobs (final (reconcile http cur m)) = previous_active_jobs m ∧
      state_file (final (reconcile http cur m)) = state_file m
  end.
Proof.
  pose proof (reconcile_run cur m) as H. cbv zeta in H.
  destruct (quiet_starts cur (elements (new_jobs cur (previous_active_jobs m))) m)
    as (Hf1 & Hw1 & Hp1).
  destruct (result (forM_ _ _ m)) as [[]|e1] eqn:Hs.
  - match type of H with context [result ?s] =>
      destruct (quiet_stops (previous_active_jobs m)
                  (elements (stopped_jobs cur (previous_active_jobs m)))
                  (final (forM_ (start_job http cur)
                     (elements (new_jobs cur (previous_active_jobs m))) m)))
        as (Hf2 & Hw2 & Hp2) end.
    destruct (result (forM_ (stop_job http _) _ _)) as [[]|e2] eqn:Ht.
    + destruct H as (-> & -> & _).
      by destruct (save_state_keeps
        (Machine (net (final (forM_ (stop_job http (previous_active_jobs m))
           (elements (stopped_jobs cur (previous_active_jobs m)))
           (final (forM_ (start_job http cur)
              (elements (new_jobs cur (previous_active_jobs m))) m)))))
           (state_file m) (disk m) cur)) as (_ & _ & _ & ->).
    + destruct H as (-> & -> & _). by rewrite Hp2, Hf2.
  - destruct H as (-> & -> & _). done.
Qed.

(** C2.  The diff of a cycle is set difference over the keys, both ways:
    new jobs are the current keys that were not stored, stopped jobs the
    stored keys that are not current, and these are the sets the cycle walks
    for its starts and its stops.  No key is both new and stopped, and after
    a completed cycle the stored key set is the previous one plus the new
    jobs minus the stopped ones, which is the current key set. *)
Theorem diff_is_set_difference (cur : gmap (list atom) json) (m : machine) :
  result (reconcile http cur m) = Ret () →
  let prev := previous_active_jobs m in
  let news := new_jobs cur prev in
  let stops := stopped_jobs cur prev in
  let stored := dom (previous_active_jobs (final (reconcile http cur m))) in
  (∀ k, k ∈ news ↔ k ∈ dom cur ∧ k ∉ dom prev) ∧
  (∀ k, k ∈ stops ↔ k ∈ dom prev ∧ k ∉ dom cur) ∧
  (∃ m1 m2 : machine,
     emitted (reconcile http cur m)
     = emitted (forM_ (start_job http cur) (elements news) m) ++
       emitted (forM_ (stop_job http prev) (elements stops) m1) ++
       emitted (save_state m2)) ∧
  (∀ k, ¬ (k ∈ news ∧ k ∈ stops)) ∧
  stored = (dom prev ∪ news) ∖ stops ∧
  stored = dom cur.
Proof.
  intros Hret prev news stops stored.
  pose proof (reconcile_stored cur m) as Hst. rewrite Hret in Hst.
  assert (Htrace : ∃ m1 m2 : machine,
     emitted (reconcile http cur m)
     = emitted (forM_ (start_job http cur) (elements news) m) ++
       emitted (forM_ (stop_job http prev) (elements stops) m1) ++
       emitted (save_state m2)).
  { pose proof (reconcile_run cur m) as Hrun. cbv zeta in Hrun.
    fold prev news stops in Hrun.
    destruct (result (forM_ (start_job http cur) _ m)) as [[]|] eqn:Hstarts;
      [|destruct Hrun as (Hr & _); congruence].
    destruct (result (forM_ (stop_job http _) _ _)) as [[]|] eqn:Hstops;
      [|destruct Hrun as (Hr & _); congruence].
    destruct Hrun as (_ & _ & Hem). by do 2 eexists. }
  subst stored news stops. rewrite Hst. unfold new_jobs, stopped_jobs.
  split_and!.
  - intros k. apply elem_of_difference.
  - intros k. apply elem_of_difference.
  - exact Htrace.
  - intros k [Hn Hs]. apply elem_of_difference in Hn, Hs. tauto.
  - apply set_eq. intros k.
    rewrite !elem_of_difference, elem_of_union, elem_of_difference.
    destruct (decide (k ∈ dom cur)), (decide (k ∈ dom prev)); tauto.
  - done.
Qed.

Lemma bind_lift_Ret {A B} (a : A) (k : A → M B) (m : machine) :
  (lift (Ret a) ≫= k) m = k a m.
Proof. unfold mbind, M_bind, bind, lift. simpl. by destruct (k a m). Qed.

(** A loop that returns has run its body on each item, and the trace of the
    loop holds the trace of that run. *)
Lemma forM__visits {B} (f : B → M ()) (l : list B) (x : B) (m : machine) :
  x ∈ l →
  result (forM_ f l m) = Ret () →
  ∃ mx pre post,
    result (f x mx) = Ret () ∧
    emitted (forM_ f l m) = pre ++ emitted (f x mx) ++ post.
Proof.
  intros Hx. revert m. induction l as [|y l IH]; intros m Hret.
  - by apply elem_of_nil in Hx.
  - simpl in Hret. destruct (bind_Ret_inv _ _ _ _ Hret) as ([] & Hy & Hrest).
    simpl. rewrite (bind_Ret_emitted _ _ _ _ Hy).
    apply elem_of_cons in Hx as [->|Hx].
    + exists m, [], (emitted (forM_ f l (final (f y m)))). done.
    + destruct (IH Hx _ Hrest) as (mx & pre & post & Hfx & Hem).
      exists mx, (emitted (f y m) ++ pre), post. split; [done|].
      rewrite Hem. by rewrite <- app_assoc.
Qed.

Lemma recorder_only_start_job cur key : emits not_primary (start_job http cur key).
Proof. unfold start_job. emits_steps. Qed.

Lemma recorder_only_stop_job prev key : emits not_primary (stop_job http prev key).
Proof. unfold stop_job. emits_steps. Qed.

Lemma recorder_only_save_state : emits not_primary save_state.
Proof.
  unfold save_state, read_disk, get_previous, write_file. intros m.
  unfold mbind, M_bind, bind. simpl.
  destruct (disk m); simpl; try (by repeat constructor);
    destruct (joined _); simpl; by repeat constructor.
Qed.

(** The locked part of a cycle does not go back to the primary system. *)
Lemma recorder_only_reconcile cur : emits not_primary (reconcile http cur).
Proof.
  unfold reconcile. apply emits_bind; [intros m; constructor|intros prev].
  apply emits_bind; [apply emits_forM_, recorder_only_start_job|intros _].
  apply emits_bind; [apply emits_forM_, recorder_only_stop_job|intros _].
  apply emits_bind; [intros m; constructor|intros _].
  apply recorder_only_save_state.
Qed.

Lemma stop_job_stored prev key b l (m : machine) :
  prev !! key = Some (job_record b l) →
  stop_job http prev key m = stop_secondary_recording http (JStr b) (JStr l) m.
Proof.
  intros Hkey. unfold stop_job. rewrite Hkey. cbn [truthy job_record].
  change (py_index "basename" (job_record b l)) with (Ret (JStr b)).
  rewrite bind_lift_Ret.
  change (py_index "logical_name" (job_record b l)) with (Ret (JStr l)).
  by rewrite bind_lift_Ret.
Qed.

Lemma start_job_current cur key b l (m : machine) :
  cur !! key = Some (job_record b l) →
  start_job http cur key m = start_secondary_recording http (JStr b) (JStr l) m.
Proof.
  intros Hkey. unfold start_job. rewrite Hkey.
  change (py_index "basename" (job_record b l)) with (Ret (JStr b)).
  rewrite bind_lift_Ret.
  change (py_index "logical_name" (job_record b l)) with (Ret (JStr l)).
  by rewrite bind_lift_Ret.
Qed.

(** A cycle that completes has run the start step on every new job and the
    stop step on every stopped job. *)
Lemma reconcile_visits_new (cur : gmap (list atom) json) (m : machine) key :
  key ∈ new_jobs cur (previous_active_jobs m) →
  result (reconcile http cur m) = Ret () →
  ∃ mk pre post,
    result (start_job http cur key mk) = Ret () ∧
    emitted (reconcile http cur m) = pre ++ emitted (start_job http cur key mk) ++ post.
Proof.
  intros Hkey Hret. pose proof (reconcile_run cur m) as Hrun. cbv zeta in Hrun.
  destruct (result (forM_ (start_job http cur) _ m)) as [[]|] eqn:Hstarts;
    [|destruct Hrun as (Hr & _); congruence].
  destruct (result (forM_ (stop_job http _) _ _)) as [[]|] eqn:Hstops;
    [|destruct Hrun as (Hr & _); congruence].
  destruct Hrun as (_ & _ & ->).
  destruct (forM__visits _ _ key _ (proj2 (elem_of_elements _ _) Hkey) Hstarts)
    as (mk & pre & post & Hone & Hem).
  exists mk, pre. eexists. split; [done|].
  rewrite Hem. rewrite <- !app_assoc. reflexivity.
Qed.

Lemma reconcile_visits_stopped (cur : gmap (list atom) json) (m : machine) key :
  key ∈ stopped_jobs cur (previous_active_jobs m) →
  result (reconcile http cur m) = Ret () →
  ∃ mk pre post,
    result (stop_job http (previous_active_jobs m) key mk) = Ret () ∧
    emitted (reconcile http cur m)
    = pre ++ emitted (stop_job http (previous_active_jobs m) key mk) ++ post.
Proof.
  intros Hkey Hret. pose proof (reconcile_run cur m) as Hrun. cbv zeta in Hrun.
  destruct (result (forM_ (start_job http cur) _ m)) as [[]|] eqn:Hstarts;
    [|destruct Hrun as (Hr & _); congruence].
  destruct (result (forM_ (stop_job http _) _ _)) as [[]|] eqn:Hstops;
    [|destruct Hrun as (Hr & _); congruence].
  destruct Hrun as (_ & _ & ->).
  destruct (forM__visits _ _ key _ (proj2 (elem_of_elements _ _) Hkey) Hstops)
    as (mk & pre & post & Hone & Hem).
  exists mk, (emitted (forM_ (start_job http cur)
                (elements (new_jobs cur (previous_active_jobs m))) m) ++ pre).
  eexists. split; [done|]. rewrite Hem. rewrite <- !app_assoc. reflexivity.
Qed.

(** The start step and the save send no stop. *)
Lemma no_stop_in_start_job cur key :
  emits (λ e, is_stop e = false) (start_job http cur key).
Proof. unfold start_job. emits_steps. Qed.

Lemma no_stop_in_save_state : emits (λ e, is_stop e = false) save_state.
Proof.
  unfold save_state, read_disk, get_previous, write_file. intros m.
  unfold mbind, M_bind, bind. simpl.
  destruct (disk m); simpl; try (by repeat constructor);
    destruct (joined _); simpl; by repeat constructor.
Qed.

(** With nothing stored, a cycle sends no stop. *)
Lemma reconcile_from_nothing (cur : gmap (list atom) json) (m : machine) :
  previous_active_jobs m = ∅ →
  Forall (λ e, is_stop e = false) (emitted (reconcile http cur m)).
Proof.
  intros Hprev. pose proof (reconcile_run cur m) as Hrun. cbv zeta in Hrun.
  assert (Hnone : elements (stopped_jobs cur (previous_active_jobs m)) = []).
  { unfold stopped_jobs. rewrite Hprev, dom_empty_L, empty_difference_L.
    apply elements_empty. }
  rewrite Hnone in Hrun. cbn [forM_] in Hrun.
  pose proof (emits_forM_ (λ e, is_stop e = false) (start_job http cur)
                (elements (new_jobs cur (previous_active_jobs m)))
                (no_stop_in_start_job cur) m) as Hstarts.
  destruct (result (forM_ (start_job http cur) _ m)) as [[]|] eqn:Hs.
  - cbn in Hrun. destruct Hrun as (_ & _ & ->).
    apply Forall_app. split; [done|].
    apply no_stop_in_save_state.
  - by destruct Hrun as (_ & _ & ->).
Qed.

(** C8.  A stopped job is stopped with what the previous cycle stored for
    it.  For a key of the stopped set whose stored record is (basename,
    logical name): the engine's step for the key is stop-recording on
    exactly these two values; a cycle that completes has run it; the locked
    part of the cycle issues no request to the primary system, so nothing is
    fetched again; and stop-recording itself only checks the status, logs and
    returns when the source is not recording. *)
Theorem stop_uses_stored_record (cur : gmap (list atom) json) (m : machine)
    (key : list atom) (b l : string) :
  key ∈ stopped_jobs cur (previous_active_jobs m) →
  previous_active_jobs m !! key = Some (job_record b l) →
  let stop := stop_secondary_recording http (JStr b) (JStr l) in
  (∀ m', stop_job http (previous_active_jobs m) key m' = stop m') ∧
  (result (reconcile http cur m) = Ret () →
   ∃ mk pre post,
     result (stop mk) = Ret () ∧
     emitted (reconcile http cur m) = pre ++ emitted (stop mk) ++ post) ∧
  Forall not_primary (emitted (reconcile http cur m)) ∧
  (∀ m' i v,
     logical_name_to_dvr_source_id !! l = Some i →
     result (is_dvr_recording http i m') = Ret v →
     truthy v = false →
     result (stop m') = Ret () ∧
     filter (λ e, is_http e = true) (emitted (stop m')) = [Http GetSources] ∧
     last (emitted (stop m')) = Some (Log Info (NotRecording (JStr l)))).
Proof.
  intros Hkey Hrec stop. split_and!.
  - intros m'. by apply stop_job_stored.
  - intros Hret.
    destruct (reconcile_visits_stopped cur m key Hkey Hret)
      as (mk & pre & post & Hone & Hem).
    rewrite (stop_job_stored _ _ _ _ _ Hrec) in Hone, Hem.
    by exists mk, pre, post.
  - apply recorder_only_reconcile.
  - intros m' i v Hl Hv Ht. subst stop. cbv beta.
    rewrite (stop_not_recording (JStr b) l i m' v Hl Hv Ht). cbn [result emitted].
    split; [done|]. split; [|apply last_snoc].
    rewrite filter_snoc, is_dvr_recording_requests. done.
Qed.

(** C7.  [load_state] fails open.  It never raises.  On a state file that
    is missing, unreadable, undecodable or not a dictionary it leaves the
    empty snapshot, and unless the file is just missing it logs an error.
    The next cycle then takes every job of its current set as new: the new
    set is the whole current key set, no job is stopped, a cycle that
    completes has run start-recording for each current job, and it sends no
    stop. *)
Theorem load_state_fails_open (m : machine) :
  unusable (state_file m) = true →
  let o := load_state m in
  result o = Ret () ∧
  previous_active_jobs (final o) = ∅ ∧
  (state_file m = Absent → emitted o = [Log Info NoStateFile]) ∧
  (state_file m ≠ Absent → ∃ e, e ∈ emitted o ∧ is_error e = true) ∧
  (state_file m = Holds None → emitted o = [Log Error StateDecodeError]) ∧
  (∀ j, state_file m = Holds (Some j) →
        emitted o = [Log Error InvalidStateFormat; Log Info LoadedState]) ∧
  ∀ current,
    let next := reconcile http current (final o) in
    new_jobs current (previous_active_jobs (final o)) = dom current ∧
    stopped_jobs current (previous_active_jobs (final o)) = ∅ ∧
    Forall (λ e, is_stop e = false) (emitted next) ∧
    ∀ key b l,
      current !! key = Some (job_record b l) →
      result next = Ret () →
      ∃ mk pre post,
        emitted next
        = pre ++ emitted (start_secondary_recording http (JStr b) (JStr l) mk) ++ post.
Proof.
  intros Hbad o.
  assert (Hdiff : ∀ current : gmap (list atom) json,
             new_jobs current ∅ = dom current ∧ stopped_jobs current ∅ = ∅).
  { intros current. unfold new_jobs, stopped_jobs. rewrite dom_empty_L.
    split; [apply difference_empty_L|apply empty_difference_L]. }
  assert (Hlogs :
    previous_active_jobs (final o) = ∅ ∧
    (state_file m = Absent → emitted o = [Log Info NoStateFile]) ∧
    (state_file m ≠ Absent → ∃ e, e ∈ emitted o ∧ is_error e = true) ∧
    (state_file m = Holds None → emitted o = [Log Error StateDecodeError]) ∧
    (∀ j, state_file m = Holds (Some j) →
          emitted o = [Log Error InvalidStateFormat; Log Info LoadedState])).
  { subst o. unfold load_state, mbind, M_bind, bind. simpl.
    destruct (state_file m) as [| |[[]|]] eqn:Hf; simpl in *; try done;
      split_and!; try done;
      intros _; eexists; (split; [by left|done]). }
  destruct Hlogs as (Hempty & Habsent & Herror & Hgarbled & Hshape).
  split; [apply load_state_total|]. split; [done|]. split; [done|].
  split; [done|]. split; [done|]. split; [done|].
  intros current next. rewrite Hempty.
  destruct (Hdiff current) as [Hnew Hstop].
  split; [done|]. split; [done|]. split; [by apply reconcile_from_nothing|].
  intros key b l Hkey Hret.
  destruct (reconcile_visits_new current (final o) key) as (mk & pre & post & _ & Hem).
  { rewrite Hempty, Hnew. apply elem_of_dom. by eexists. }
  { done. }
  rewrite (start_job_current _ _ _ _ _ Hkey) in Hem. by exists mk, pre, post.
Qed.

(** ** Primary job source client and the scan of a cycle *)

Lemma extract_basename_listing (ingest_id job_id : json) (m : machine) info w :
  http (GetFiles ingest_id job_id) (net m) = (Body (JObj info), w) →
  result (extract_basename http ingest_id job_id m)
  = extract_primary_file_basename (JObj info) ∧
  final (extract_basename http ingest_id job_id m) = answered m w.
Proof.
  intros Hf. unfold extract_basename, get_files_info, mbind, M_bind, bind.
  rewrite (send_run _ _ _ _ Hf). done.
Qed.

(** A file listing that cannot be had counts as an empty one. *)
Lemma extract_basename_failed (ingest_id job_id : json) (m : machine) answer w :
  http (GetFiles ingest_id job_id) (net m) = (answer, w) →
  (∀ info, answer ≠ Body (JObj info)) →
  result (extract_basename http ingest_id job_id m) = Ret None.
Proof.
  intros Hf Hbad. unfold extract_basename, get_files_info, mbind, M_bind, bind.
  rewrite (send_run _ _ _ _ Hf). simpl.
  destruct answer as [| |[]]; try done. by destruct (Hbad fields).
Qed.

Lemma scan_job_excluded (ingest_id : json) (logical_name : string)
    (cur : gmap (list atom) json) (job job_id : json) (m : machine) :
  py_get "id" JNull job = Ret job_id →
  result (extract_basename http ingest_id job_id m) = Ret None →
  result (scan_job http ingest_id logical_name cur job m) = Ret cur.
Proof.
  intros Hid Hnone. unfold scan_job. rewrite Hid, bind_lift_Ret.
  by returns Hnone.
Qed.

Lemma scan_job_included (ingest_id : json) (logical_name : string)
    (cur : gmap (list atom) json) (job job_id : json) (m : machine) b i j :
  py_get "id" JNull job = Ret job_id →
  result (extract_basename http ingest_id job_id m) = Ret (Some b) →
  b ≠ "" →
  hashable ingest_id = Ret i →
  hashable job_id = Ret j →
  result (scan_job http ingest_id logical_name cur job m)
  = Ret (<[ [i; j] := job_record b logical_name ]> cur).
Proof.
  intros Hid Hsome Hb Hi Hj. unfold scan_job. rewrite Hid, bind_lift_Ret.
  returns Hsome. cbn [truthy]. destruct (String.eqb_spec b ""); [done|].
  cbn [negb]. by rewrite Hi, bind_lift_Ret, Hj, bind_lift_Ret.
Qed.

Lemma extract_basename_without_primary (ingest_id job_id : json) (m : machine)
    answer w :
  http (GetFiles ingest_id job_id) (net m) = (answer, w) →
  without_primary answer = true →
  result (extract_basename http ingest_id job_id m) = Ret None.
Proof.
  intros Hf Hnone.
  destruct answer as [| |[| | | | |info]];
    try (by apply (extract_basename_failed _ _ _ _ _ Hf)).
  destruct (extract_basename_listing _ _ _ _ _ Hf) as [-> _].
  simpl in Hnone. destruct (assoc "data" info) as [data|] eqn:Hdata.
  - destruct data as [| | | |files|]; try done.
    rewrite (extract_listing _ _ Hdata). by apply first_primary_none.
  - unfold extract_primary_file_basename. simpl. by rewrite Hdata.
Qed.

(** C5.  Basename extraction on a job's file listing.  When the listing has
    an entry tagged primary (the entries before it carrying other tags) with
    a file name, the basename is that name cut at its last ['.']: a name
    without ['.'] is returned whole, and a name [p.x] with no ['.'] in [x]
    gives [p].  When no primary file is found (the listing cannot be had, or
    none of its entries is tagged primary) the result is absent, and the scan
    of the job returns the current set as it was: the job is left out, and
    nothing is raised. *)
Theorem primary_basename (ingest_id : json) (logical_name : string)
    (cur : gmap (list atom) json) (job job_id : json) (m : machine)
    (answer : response) (w : World) :
  py_get "id" JNull job = Ret job_id →
  http (GetFiles ingest_id job_id) (net m) = (answer, w) →
  (∀ info pre f post s,
     answer = Body (JObj info) →
     assoc "data" info = Some (JList (pre ++ JObj f :: post)) →
     forallb untagged pre = true →
     assoc "presetTag" f = Some (JStr "Primary") →
     assoc "fileName" f = Some (JStr s) →
     s ≠ "" →
     result (extract_basename http ingest_id job_id m)
     = Ret (Some (rsplit1_head "." s)) ∧
     (occurs "." s = false → rsplit1_head "." s = s) ∧
     (∀ p x, s = p +:+ String "." x → occurs "." x = false →
             rsplit1_head "." s = p)) ∧
  (without_primary answer = true →
   result (extract_basename http ingest_id job_id m) = Ret None ∧
   result (scan_job http ingest_id logical_name cur job m) = Ret cur).
Proof.
  intros Hid Hf. split.
  - intros info pre f post s -> Hdata Hpre Htag Hname Hs.
    destruct (extract_basename_listing _ _ _ _ _ Hf) as [Hres _].
    split_and!.
    + rewrite Hres, (extract_listing _ _ Hdata), first_primary_skip.
      * by apply first_primary_hit.
      * apply forallb_forall. intros entry Hin. apply untagged_passed_over.
        by eapply forallb_forall in Hpre.
    + apply rsplit1_head_no_dot.
    + intros p x -> Hx. by apply rsplit1_head_ext.
  - intros Hnone.
    pose proof (extract_basename_without_primary _ _ _ _ _ Hf Hnone) as Hres.
    split; [done|]. by eapply scan_job_excluded.
Qed.

(** ** A whole cycle *)

Lemma reconcile_saved (cur : gmap (list atom) json) (m : machine) :
  result (reconcile http cur m) = Ret () →
  ∃ w, final (reconcile http cur m)
       = final (save_state (Machine w (state_file m) (disk m) cur)).
Proof.
  intros Hret. pose proof (reconcile_run cur m) as Hrun. cbv zeta in Hrun.
  destruct (result (forM_ (start_job http cur) _ m)) as [[]|] eqn:Hstarts;
    [|destruct Hrun as (Hr & _); congruence].
  destruct (result (forM_ (stop_job http _) _ _)) as [[]|] eqn:Hstops;
    [|destruct Hrun as (Hr & _); congruence].
  destruct Hrun as (_ & -> & _). by eexists.
Qed.

Lemma joined_empty : joined ∅ = Some ∅.
Proof. unfold joined. by rewrite map_to_list_empty. Qed.

Lemma get_active_jobs_info_failed (m : machine) answer w :
  http GetActiveJobs (net m) = (answer, w) →
  fetch_failed answer = true →
  ∃ msg, get_active_jobs_info http m
         = Outcome (Ret []) (answered m w) [Http GetActiveJobs; Log Error msg].
Proof.
  intros Hf Hbad. unfold get_active_jobs_info, mbind, M_bind, bind.
  rewrite (send_run _ _ _ _ Hf). simpl.
  destruct answer as [| |[]]; try done; by eexists.
Qed.

Lemma get_active_jobs_info_list (m : machine) data w :
  http GetActiveJobs (net m) = (Body (JList data), w) →
  get_active_jobs_info http m = Outcome (Ret data) (answered m w) [Http GetActiveJobs].
Proof.
  intros Hf. unfold get_active_jobs_info, mbind, M_bind, bind.
  by rewrite (send_run _ _ _ _ Hf).
Qed.

(** A cycle whose fetch gave no entries, for whatever reason, is the locked
    part run on the empty current set. *)
Lemma cycle_without_entries (m : machine) m' seen :
  get_active_jobs_info http m = Outcome (Ret []) m' seen →
  result (process_polling_cycle http m) = result (reconcile http ∅ m') ∧
  final (process_polling_cycle http m) = final (reconcile http ∅ m') ∧
  emitted (process_polling_cycle http m) = seen ++ emitted (reconcile http ∅ m').
Proof.
  intros Hget. unfold process_polling_cycle.
  assert (H1 : result (get_active_jobs_info http m) = Ret []) by by rewrite Hget.
  returns H1. rewrite Hget. cbn [final emitted foldM].
  assert (H2 : result ((mret ∅ : M (gmap (list atom) json)) m') = Ret ∅) by done.
  returns H2. done.
Qed.

(** C1, as the code has it.  When the fetch of the active-jobs list fails
    (no answer, a body that does not decode, a body that is not a list), the
    client logs an error and hands the cycle the empty list, and the cycle
    goes on exactly as after a fetch that found no job: nothing is new, every
    stored key is a stopped job, and a cycle that completes has run
    stop-recording, with the stored basename and logical name, for every
    stored key that holds a job record (a stored value that is falsy is
    passed over), and leaves the empty snapshot in memory, on the status
    surface and, the file being writable, in the state file.  Only a cycle
    that raises leaves them as they were. *)
Theorem failed_fetch_runs_as_empty (m : machine) answer w :
  http GetActiveJobs (net m) = (answer, w) →
  fetch_failed answer = true →
  let prev := previous_active_jobs m in
  let o := process_polling_cycle http m in
  let as_empty := reconcile http ∅ (answered m w) in
  (∃ msg, get_active_jobs_info http m
          = Outcome (Ret []) (answered m w) [Http GetActiveJobs; Log Error msg] ∧
          emitted o = [Http GetActiveJobs; Log Error msg] ++ emitted as_empty) ∧
  result o = result as_empty ∧
  final o = final as_empty ∧
  (∀ (m0 : machine) w0,
     http GetActiveJobs (net m0) = (Body (JList []), w0) →
     answered m0 w0 = answered m w →
     result (process_polling_cycle http m0) = result o ∧
     final (process_polling_cycle http m0) = final o) ∧
  new_jobs ∅ prev = ∅ ∧
  stopped_jobs ∅ prev = dom prev ∧
  (∀ key b l,
     prev !! key = Some (job_record b l) →
     result o = Ret () →
     ∃ mk pre post,
       result (stop_secondary_recording http (JStr b) (JStr l) mk) = Ret () ∧
       emitted o
       = pre ++ emitted (stop_secondary_recording http (JStr b) (JStr l) mk) ++ post) ∧
  (∀ key v (m' : machine),
     prev !! key = Some v →
     truthy v = false →
     stop_job http prev key m' = Outcome (Ret ()) m' []) ∧
  match result o with
  | Ret _ =>
      previous_active_jobs (final o) = ∅ ∧
      get_current_status (previous_active_jobs (final o)) = Ret ∅ ∧
      (disk m = Writable → state_file (final o) = Holds (Some (JObj [])))
  | Raise _ =>
      previous_active_jobs (final o) = prev ∧
      state_file (final o) = state_file m
  end.
Proof.
  intros Hf Hbad prev o as_empty.
  destruct (get_active_jobs_info_failed m answer w Hf Hbad) as [msg Hget].
  destruct (cycle_without_entries m _ _ Hget) as (Hr & Hfin & Hem).
  fold o as_empty in Hr, Hfin, Hem.
  split_and!; try done.
  - by exists msg.
  - intros m0 w0 Hf0 Hsame.
    destruct (cycle_without_entries m0 _ _ (get_active_jobs_info_list m0 [] w0 Hf0))
      as (Hr0 & Hfin0 & _).
    rewrite Hr0, Hfin0, Hsame. by rewrite Hr, Hfin.
  - unfold new_jobs. rewrite dom_empty_L. apply empty_difference_L.
  - unfold stopped_jobs. rewrite dom_empty_L. apply difference_empty_L.
  - intros key b l Hkey Hret. rewrite Hr in Hret.
    assert (Hin : key ∈ stopped_jobs ∅ (previous_active_jobs (answered m w))).
    { unfold stopped_jobs. rewrite dom_empty_L, difference_empty_L.
      apply elem_of_dom. by eexists. }
    destruct (reconcile_visits_stopped ∅ (answered m w) key Hin Hret)
      as (mk & pre & post & Hone & Hstops).
    cbn [answered previous_active_jobs] in Hone, Hstops. fold prev in Hone, Hstops.
    rewrite (stop_job_stored _ _ _ _ _ Hkey) in Hone, Hstops.
    exists mk, ([Http GetActiveJobs; Log Error msg] ++ pre), post.
    split; [done|]. rewrite Hem. fold as_empty in Hstops. rewrite Hstops.
    by rewrite <- app_assoc.
  - intros key v m' Hkey Hv. unfold stop_job. by rewrite Hkey, Hv.
  - pose proof (reconcile_stored ∅ (answered m w)) as Hst. fold as_empty in Hst.
    rewrite Hr, Hfin. destruct (result as_empty) as [[]|e] eqn:Hres.
    + rewrite Hst. split_and!; try done.
      intros Hw. destruct (reconcile_saved ∅ (answered m w) Hres) as [w' Hsaved].
      fold as_empty in Hsaved. rewrite Hsaved.
      rewrite (save_state_writes _ ∅); [|done|apply joined_empty].
      cbn [final state_file]. by rewrite map_to_list_empty.
    + done.
Qed.

(** ** The fetch phase *)

Lemma quiet_get_active_jobs_info : quiet (get_active_jobs_info http).
Proof. unfold get_active_jobs_info. quiet_steps. Qed.

Lemma quiet_get_files_info i j : quiet (get_files_info http i j).
Proof. unfold get_files_info. quiet_steps. Qed.

Lemma quiet_extract_basename i j : quiet (extract_basename http i j).
Proof. unfold extract_basename. quiet_steps. Qed.

Lemma quiet_scan_job i l cur job : quiet (scan_job http i l cur job).
Proof. unfold scan_job. quiet_steps. Qed.

Lemma quiet_scan_ingest cur ingest : quiet (scan_ingest http cur ingest).
Proof.
  unfold scan_ingest. quiet_steps. apply quiet_foldM. intros. apply quiet_scan_job.
Qed.

Lemma quiet_scan entries cur : quiet (foldM (scan_ingest http) cur entries).
Proof. apply quiet_foldM. intros. apply quiet_scan_ingest. Qed.

Lemma emits_foldM P {A B} (f : A → B → M A) l :
  (∀ a x, emits P (f a x)) → ∀ a, emits P (foldM f a l).
Proof.
  intros Hf. induction l as [|x l IH]; intros a; simpl.
  - apply emits_ret.
  - apply emits_bind; [apply Hf|apply IH].
Qed.

Lemma fetch_only_get_active_jobs_info : emits not_recorder (get_active_jobs_info http).
Proof. unfold get_active_jobs_info. emits_steps. Qed.

Lemma fetch_only_extract_basename i j : emits not_recorder (extract_basename http i j).
Proof. unfold extract_basename, get_files_info. emits_steps. Qed.

Lemma fetch_only_scan_job i l cur job : emits not_recorder (scan_job http i l cur job).
Proof. unfold scan_job. emits_steps. Qed.

Lemma fetch_only_scan_ingest cur ingest : emits not_recorder (scan_ingest http cur ingest).
Proof.
  unfold scan_ingest. emits_steps. apply emits_foldM. intros. apply fetch_only_scan_job.
Qed.

Lemma fetch_only_scan entries cur :
  emits not_recorder (foldM (scan_ingest http) cur entries).
Proof. apply emits_foldM. intros. apply fetch_only_scan_ingest. Qed.

(** The trace of a bind is the trace of its first part followed by the
    trace of what ran after it, if anything did. *)
Lemma bind_trace (P Q : event → Prop) {A B} (c : M A) (k : A → M B) (m : machine) :
  Forall P (emitted (c m)) →
  (∀ a, Forall Q (emitted (k a (final (c m))))) →
  ∃ pre post, emitted ((c ≫= k) m) = pre ++ post ∧ Forall P pre ∧ Forall Q post.
Proof.
  intros Hc Hk. destruct (result (c m)) as [a|e] eqn:Hr.
  - exists (emitted (c m)), (emitted (k a (final (c m)))).
    by rewrite (bind_Ret_emitted _ _ _ _ Hr).
  - exists (emitted (c m)), []. rewrite (bind_Raise_emitted _ _ _ _ Hr), app_nil_r.
    by split_and!.
Qed.

(** A property that every step of a fold keeps holds of what the fold
    returns. *)
Lemma foldM_keeps {A B} (I : A → Prop) (f : A → B → M A) (l : list B) :
  (∀ a x (m : machine) a', I a → result (f a x m) = Ret a' → I a') →
  ∀ a (m : machine) a', I a → result (foldM f a l m) = Ret a' → I a'.
Proof.
  intros Hf. induction l as [|x l IH]; intros a m a' Ha Hret.
  - simpl in Hret. by injection Hret as <-.
  - simpl in Hret. destruct (bind_Ret_inv _ _ _ _ Hret) as (a1 & H1 & H2).
    eapply IH; [|exact H2]. by eapply Hf.
Qed.

(** A fold over a list with an item on which the step always raises does
    not return. *)
Lemma foldM_raises {A B} (f : A → B → M A) (l : list B) (x : B) :
  x ∈ l →
  (∀ a (m : machine), ∃ e, result (f a x m) = Raise e) →
  ∀ a (m : machine), ∃ e, result (foldM f a l m) = Raise e.
Proof.
  intros Hx Hf. induction l as [|y l IH]; intros a m.
  - by apply elem_of_nil in Hx.
  - simpl. destruct (result (f a y m)) as [a1|e] eqn:Hy.
    + rewrite (bind_Ret_result _ _ _ _ Hy).
      apply elem_of_cons in Hx as [->|Hx].
      * destruct (Hf a m) as [e He]. congruence.
      * by apply IH.
    + exists e. by rewrite (bind_Raise_result _ _ _ _ Hy).
Qed.

(** ** The monitoring loop and the phases of a cycle *)

Lemma get_active_jobs_info_returns (m : machine) :
  ∃ entries, result (get_active_jobs_info http m) = Ret entries.
Proof.
  unfold get_active_jobs_info, mbind, M_bind, bind.
  destruct (http GetActiveJobs (net m)) as [answer w] eqn:Hf.
  rewrite (send_run _ _ _ _ Hf). simpl.
  destruct answer as [| |[]]; by eexists.
Qed.

(** A cycle that raises has replaced neither the stored snapshot nor the
    state file. *)
Lemma raising_cycle_keeps_state (m : machine) e :
  result (process_polling_cycle http m) = Raise e →
  previous_active_jobs (final (process_polling_cycle http m)) = previous_active_jobs m ∧
  state_file (final (process_polling_cycle http m)) = state_file m.
Proof.
  unfold process_polling_cycle. intros Hraise.
  destruct (get_active_jobs_info_returns m) as [entries Hget].
  destruct (quiet_get_active_jobs_info m) as (Hf1 & _ & Hp1).
  revert Hraise. returns Hget.
  destruct (quiet_scan entries ∅ (final (get_active_jobs_info http m)))
    as (Hf2 & _ & Hp2).
  destruct (result (foldM (scan_ingest http) ∅ entries
                      (final (get_active_jobs_info http m)))) as [cur|e'] eqn:Hscan.
  - returns Hscan. intros Hraise.
    pose proof (reconcile_stored cur
      (final (foldM (scan_ingest http) ∅ entries (final (get_active_jobs_info http m)))))
      as Hst.
    rewrite Hraise in Hst. destruct Hst as [-> ->]. by rewrite Hp2, Hf2, Hp1, Hf1.
  - raises Hscan. intros _. by rewrite Hp2, Hf2, Hp1, Hf1.
Qed.

(** X1.  The monitoring loop outlives a cycle that raises: the turn of the
    loop returns, the exception is the last line it logs, and the stored
    snapshot and the state file are as they were before the cycle, so the
    next turn starts from the same state. *)
Theorem loop_survives_raising_cycle (m : machine) e :
  result (process_polling_cycle http m) = Raise e →
  let turn := monitoring_turn http m in
  result turn = Ret () ∧
  emitted turn
  = emitted (process_polling_cycle http m) ++ [Log Error (UnexpectedLoopError e)] ∧
  previous_active_jobs (final turn) = previous_active_jobs m ∧
  state_file (final turn) = state_file m.
Proof.
  intros Hraise turn.
  destruct (raising_cycle_keeps_state m e Hraise) as [Hprev Hfile].
  subst turn. unfold monitoring_turn. rewrite Hraise. by cbn [result emitted final].
Qed.

(** X2.  A cycle fetches, then acts: its trace splits into a first part
    without any request to the recorder and a second part without any
    request to the primary system. *)
Theorem cycle_fetches_then_acts (m : machine) :
  ∃ fetched acted,
    emitted (process_polling_cycle http m) = fetched ++ acted ∧
    Forall not_recorder fetched ∧
    Forall not_primary acted.
Proof.
  unfold process_polling_cycle.
  destruct (get_active_jobs_info_returns m) as [entries Hget].
  rewrite (bind_Ret_emitted _ _ _ _ Hget).
  destruct (bind_trace not_recorder not_primary
              (foldM (scan_ingest http) ∅ entries)
              (λ current_active_jobs, reconcile http current_active_jobs)
              (final (get_active_jobs_info http m)))
    as (pre & post & Hem & Hpre & Hpost).
  - apply fetch_only_scan.
  - intros cur. apply recorder_only_reconcile.
  - exists (emitted (get_active_jobs_info http m) ++ pre), post.
    rewrite <- app_assoc, <- Hem. split; [done|]. split; [|done].
    apply Forall_app. split; [apply fetch_only_get_active_jobs_info|done].
Qed.

(** ** What the scan builds *)

Lemma lift_Ret_inv {A} (r : res A) (m : machine) a :
  result (lift r m) = Ret a → r = Ret a.
Proof. done. Qed.

Lemma logical_name_of_known (ingest_id : json) l :
  logical_name_of ingest_id = Ret l →
  l = "Unknown Ingest" ∨ ∃ s, ingest_id_map !! s = Some l.
Proof.
  unfold logical_name_of.
  destruct ingest_id as [| | |s| |]; simpl; try (intros [= <-]; by left); try done.
  destruct (ingest_id_map !! s) as [l'|] eqn:Hs; simpl; intros [= <-].
  - right. by exists s.
  - by left.
Qed.

Lemma scan_job_keeps_shape (ingest_id : json) (l : string)
    (cur : gmap (list atom) json) (job : json) (m : machine) cur' :
  l = "Unknown Ingest" ∨ (∃ s, ingest_id_map !! s = Some l) →
  cycle_shaped cur →
  result (scan_job http ingest_id l cur job m) = Ret cur' →
  cycle_shaped cur'.
Proof.
  intros Hl Hcur. unfold scan_job. intros Hret.
  destruct (bind_Ret_inv _ _ _ _ Hret) as (job_id & _ & Hret1). clear Hret.
  destruct (bind_Ret_inv _ _ _ _ Hret1) as ([b|] & _ & Hret2); clear Hret1;
    [|by injection Hret2 as <-].
  cbn [truthy] in Hret2. destruct (String.eqb_spec b "") as [Hb|Hb];
    cbn [negb] in Hret2; [by injection Hret2 as <-|].
  destruct (bind_Ret_inv _ _ _ _ Hret2) as (i & _ & Hret3). clear Hret2.
  destruct (bind_Ret_inv _ _ _ _ Hret3) as (j & _ & Hret4). clear Hret3.
  injection Hret4 as <-. intros k v.
  destruct (decide (k = [i; j])) as [->|Hk].
  - rewrite lookup_insert_eq. intros [= <-]. split; [done|]. by exists b, l.
  - rewrite lookup_insert_ne by done. apply Hcur.
Qed.

Lemma scan_ingest_keeps_shape (cur : gmap (list atom) json) (ingest : json)
    (m : machine) cur' :
  cycle_shaped cur →
  result (scan_ingest http cur ingest m) = Ret cur' →
  cycle_shaped cur'.
Proof.
  intros Hcur. unfold scan_ingest. intros Hret.
  destruct (bind_Ret_inv _ _ _ _ Hret) as (ingest_id & _ & Hret1). clear Hret.
  destruct (bind_Ret_inv _ _ _ _ Hret1) as (l & Hl & Hret2). clear Hret1.
  apply lift_Ret_inv, logical_name_of_known in Hl.
  destruct (bind_Ret_inv _ _ _ _ Hret2) as (jobs & _ & Hret3). clear Hret2.
  revert Hret3. apply foldM_keeps; [|done].
  intros a x m' a' Ha. by apply scan_job_keeps_shape.
Qed.

Lemma scan_keeps_shape (entries : list json) (m : machine) cur :
  result (foldM (scan_ingest http) ∅ entries m) = Ret cur → cycle_shaped cur.
Proof.
  apply foldM_keeps.
  - intros a x m' a'. apply scan_ingest_keeps_shape.
  - intros k v Hk. by rewrite lookup_empty in Hk.
Qed.

(** X3.  What a completed cycle stores: every key is a pair, and every
    value is a record with a non-empty basename and a logical name that is
    "Unknown Ingest" or a name of the ingest-id table. *)
Theorem completed_cycle_stores_records (m : machine) :
  result (process_polling_cycle http m) = Ret () →
  cycle_shaped (previous_active_jobs (final (process_polling_cycle http m))).
Proof.
  unfold process_polling_cycle. intros Hret.
  destruct (bind_Ret_inv _ _ _ _ Hret) as (entries & Hget & Hret1).
  revert Hret. returns Hget. intros _.
  destruct (bind_Ret_inv _ _ _ _ Hret1) as (cur & Hscan & Hret2).
  returns Hscan.
  pose proof (reconcile_stored cur
    (final (foldM (scan_ingest http) ∅ entries
              (final (get_active_jobs_info http m))))) as Hst.
  rewrite Hret2 in Hst. rewrite Hst. by eapply scan_keeps_shape.
Qed.

(** X4.  A list of active jobs with an entry that is not an object stops
    the cycle: the cycle raises, it has sent the recorder nothing, and the
    stored snapshot and the state file are as they were. *)
Theorem malformed_entry_blocks_cycle (m : machine) entries w bad :
  http GetActiveJobs (net m) = (Body (JList entries), w) →
  bad ∈ entries →
  (∀ fields, bad ≠ JObj fields) →
  let o := process_polling_cycle http m in
  (∃ e, result o = Raise e) ∧
  Forall not_recorder (emitted o) ∧
  previous_active_jobs (final o) = previous_active_jobs m ∧
  state_file (final o) = state_file m.
Proof.
  intros Hf Hbad Hshape o.
  assert (Hraise : ∃ e, result o = Raise e).
  { subst o. unfold process_polling_cycle.
    pose proof (get_active_jobs_info_list m entries w Hf) as Hget.
    assert (Hget' : result (get_active_jobs_info http m) = Ret entries)
      by by rewrite Hget.
    returns Hget'.
    destruct (foldM_raises (scan_ingest http) entries bad Hbad) with
      (a := (∅ : gmap (list atom) json)) (m := final (get_active_jobs_info http m))
      as [e He].
    - intros a m'. exists AttributeError. unfold scan_ingest.
      destruct bad as [| | | | |fields]; try done. by destruct (Hshape fields).
    - exists e. by rewrite (bind_Raise_result _ _ _ _ He). }
  destruct Hraise as [e He]. split; [by exists e|].
  destruct (raising_cycle_keeps_state m e He) as [Hprev Hfile].
  split; [|done].
  subst o. revert He. unfold process_polling_cycle.
  destruct (get_active_jobs_info_returns m) as [entries' Hget].
  returns Hget. intros He.
  apply Forall_app. split; [apply fetch_only_get_active_jobs_info|].
  destruct (result (foldM (scan_ingest http) ∅ entries'
                      (final (get_active_jobs_info http m)))) as [cur|e'] eqn:Hscan.
  - exfalso. pose proof (get_active_jobs_info_list m entries w Hf) as Hlist.
    rewrite Hlist in Hget. injection Hget as <-.
    destruct (foldM_raises (scan_ingest http) entries bad Hbad) with
      (a := (∅ : gmap (list atom) json)) (m := final (get_active_jobs_info http m))
      as [e'' He''].
    + intros a m'. exists AttributeError. unfold scan_ingest.
      destruct bad as [| | | | |fields]; try done. by destruct (Hshape fields).
    + congruence.
  - raises Hscan. apply fetch_only_scan.
Qed.

(** ** The order of the actions *)

Lemma save_state_logs_only :
  emits (λ e, is_http e = false) save_state.
Proof.
  unfold save_state, read_disk, get_previous, write_file. intros m.
  unfold mbind, M_bind, bind. simpl.
  destruct (disk m); simpl; try (by repeat constructor);
    destruct (joined _); simpl; by repeat constructor.
Qed.

Lemma no_start_in_stop_job prev key :
  emits (λ e, is_start e = false ∧ is_put e = false) (stop_job http prev key).
Proof. unfold stop_job. emits_steps. Qed.

Lemma no_start_in_save_state :
  emits (λ e, is_start e = false ∧ is_put e = false) save_state.
Proof.
  intros m. eapply Forall_impl; [apply save_state_logs_only|].
  intros [[]|]; simpl; by try done.
Qed.

(** X5.  A cycle whose current jobs have the keys of the stored ones sends
    the recorder nothing: the locked part returns without a single request,
    leaves the network as it was, and stores the current records in place of
    the old ones (a changed basename is stored, and no name is sent). *)
Theorem same_keys_send_nothing (cur : gmap (list atom) json) (m : machine) :
  dom cur = dom (previous_active_jobs m) →
  let o := reconcile http cur m in
  result o = Ret () ∧
  Forall (λ e, is_http e = false) (emitted o) ∧
  net (final o) = net m ∧
  previous_active_jobs (final o) = cur.
Proof.
  intros Hdom o. pose proof (reconcile_run cur m) as Hrun. cbv zeta in Hrun.
  assert (Hnew : elements (new_jobs cur (previous_active_jobs m)) = []).
  { unfold new_jobs. rewrite Hdom, difference_diag_L. apply elements_empty. }
  assert (Hstop : elements (stopped_jobs cur (previous_active_jobs m)) = []).
  { unfold stopped_jobs. rewrite Hdom, difference_diag_L. apply elements_empty. }
  rewrite Hnew, Hstop in Hrun. cbn in Hrun. destruct Hrun as (Hret & Hfin & Hem).
  subst o. rewrite Hret, Hfin, Hem.
  destruct (save_state_keeps (Machine (net m) (state_file m) (disk m) cur))
    as (_ & -> & _ & ->).
  split; [done|]. split; [apply save_state_logs_only|done].
Qed.

(** X6.  Within a cycle every start comes before every stop: the trace of
    the locked part splits into a first part without a stop request and a
    second part with neither a name PUT nor a record request. *)
Theorem starts_come_before_stops (cur : gmap (list atom) json) (m : machine) :
  ∃ starting stopping,
    emitted (reconcile http cur m) = starting ++ stopping ∧
    Forall (λ e, is_stop e = false) starting ∧
    Forall (λ e, is_start e = false ∧ is_put e = false) stopping.
Proof.
  pose proof (reconcile_run cur m) as Hrun. cbv zeta in Hrun.
  pose proof (emits_forM_ (λ e, is_stop e = false) (start_job http cur)
                (elements (new_jobs cur (previous_active_jobs m)))
                (no_stop_in_start_job cur) m) as Hstarts.
  set (starts := forM_ (start_job http cur)
                   (elements (new_jobs cur (previous_active_jobs m))) m) in *.
  pose proof (emits_forM_ (λ e, is_start e = false ∧ is_put e = false)
                (stop_job http (previous_active_jobs m))
                (elements (stopped_jobs cur (previous_active_jobs m)))
                (no_start_in_stop_job (previous_active_jobs m)) (final starts))
    as Hstops.
  set (stops := forM_ (stop_job http (previous_active_jobs m))
                  (elements (stopped_jobs cur (previous_active_jobs m)))
                  (final starts)) in *.
  exists (emitted starts).
  destruct (result starts) as [[]|].
  - destruct (result stops) as [[]|].
    + destruct Hrun as (_ & _ & ->). eexists. split; [done|]. split; [done|].
      apply Forall_app. split; [done|apply no_start_in_save_state].
    + destruct Hrun as (_ & _ & ->). by eexists.
  - destruct Hrun as (_ & _ & ->). exists []. by rewrite app_nil_r.
Qed.

(** ** More on the recorder client *)

Lemma start_check_raises (b : json) (l : string) (i : Z) (m : machine) e :
  logical_name_to_dvr_source_id !! l = Some i →
  result (is_dvr_recording http i m) = Raise e →
  result (start_secondary_recording http b (JStr l) m) = Raise e ∧
  emitted (start_secondary_recording http b (JStr l) m)
  = emitted (is_dvr_recording http i m).
Proof.
  intros Hl He. unfold start_secondary_recording.
  assert (H0 : result (lift (table_get logical_name_to_dvr_source_id (JStr l)) m)
               = Ret (Some i)) by (simpl; by rewrite Hl).
  returns H0. cbn [lift final emitted app]. by raises He.
Qed.

Lemma stop_check_raises (b : json) (l : string) (i : Z) (m : machine) e :
  logical_name_to_dvr_source_id !! l = Some i →
  result (is_dvr_recording http i m) = Raise e →
  result (stop_secondary_recording http b (JStr l) m) = Raise e ∧
  emitted (stop_secondary_recording http b (JStr l) m)
  = emitted (is_dvr_recording http i m).
Proof.
  intros Hl He. unfold stop_secondary_recording.
  assert (H0 : result (lift (table_get logical_name_to_dvr_source_id (JStr l)) m)
               = Ret (Some i)) by (simpl; by rewrite Hl).
  returns H0. cbn [lift final emitted app]. by raises He.
Qed.

(** What [stop_secondary_recording] does on a source that is recording. *)
Lemma stop_recording (b : json) (l : string) (i : Z) (m : machine) v stopped w :
  logical_name_to_dvr_source_id !! l = Some i →
  result (is_dvr_recording http i m) = Ret v →
  truthy v = true →
  http (GetStop i) (net (final (is_dvr_recording http i m))) = (stopped, w) →
  stop_secondary_recording http b (JStr l) m =
    Outcome (Ret ()) (answered (final (is_dvr_recording http i m)) w)
      (emitted (is_dvr_recording http i m) ++
       [Http (GetStop i);
        if succeeded stopped
        then Log Info (StoppedRecording (JStr l))
        else Log Error (FailedStopRecording (JStr l))]).
Proof.
  intros Hl Hv Ht Hstop.
  assert (H0 : result (lift (table_get logical_name_to_dvr_source_id (JStr l)) m)
               = Ret (Some i)) by (simpl; by rewrite Hl).
  pose proof (send_run _ _ _ _ Hstop) as Hsend.
  assert (H1 : result (send http (GetStop i) (final (is_dvr_recording http i m)))
               = Ret stopped) by by rewrite Hsend.
  apply outcome_eq; unfold stop_secondary_recording.
  all: returns H0; cbn [lift final emitted app]; returns Hv; rewrite Ht.
  all: returns H1; rewrite Hsend; cbn [final emitted result].
  all: by destruct (succeeded stopped).
Qed.

Lemma no_stop_in_start b l :
  emits (λ e, is_stop e = false ∧ is_primary e = false)
        (start_secondary_recording http b l).
Proof. unfold start_secondary_recording. emits_steps. Qed.

Lemma no_start_in_stop b l :
  emits (λ e, is_start e = false ∧ is_put e = false ∧ is_primary e = false)
        (stop_secondary_recording http b l).
Proof. unfold stop_secondary_recording. emits_steps. Qed.

(** X7.  The two actions keep to their lanes.  A start sends no stop and a
    stop sends neither a name PUT nor a record request; neither talks to the
    primary system; a start sends at most one name PUT and a record request
    only after it; a stop sends at most one stop request. *)
Theorem actions_keep_to_their_lanes (basename logical_name : json) (m : machine) :
  let started := emitted (start_secondary_recording http basename logical_name m) in
  let stopped := emitted (stop_secondary_recording http basename logical_name m) in
  Forall (λ e, is_stop e = false ∧ is_primary e = false) started ∧
  Forall (λ e, is_start e = false ∧ is_put e = false ∧ is_primary e = false) stopped ∧
  (length (filter (λ e, is_start e = true) started)
   ≤ length (filter (λ e, is_put e = true) started))%nat ∧
  (length (filter (λ e, is_put e = true) started) ≤ 1)%nat ∧
  (length (filter (λ e, is_stop e = true) stopped) ≤ 1)%nat.
Proof.
  intros started stopped.
  split; [apply no_stop_in_start|]. split; [apply no_start_in_stop|].
  assert (Hpassive : ∀ i m',
    filter (λ e, is_start e = true) (emitted (is_dvr_recording http i m')) = [] ∧
    filter (λ e, is_put e = true) (emitted (is_dvr_recording http i m')) = [] ∧
    filter (λ e, is_stop e = true) (emitted (is_dvr_recording http i m')) = []).
  { intros i m'. split_and!; apply is_dvr_recording_passive; try done;
      [apply start_is_request|apply put_is_request|apply stop_is_request]. }
  subst started stopped.
  destruct logical_name as [| | |l| |];
    try (unfold start_secondary_recording, stop_secondary_recording,
           mbind, M_bind, bind; simpl; split_and!; lia).
  destruct (logical_name_to_dvr_source_id !! l) as [i|] eqn:Hl.
  - destruct (Hpassive i m) as (Hs & Hp & Ht).
    destruct (result (is_dvr_recording http i m)) as [v|e] eqn:Hv.
    + destruct (truthy v) eqn:Hv'.
      * rewrite (start_already_recording basename l i m v Hl Hv Hv').
        destruct (http (GetStop i) (net (final (is_dvr_recording http i m))))
          as [answer w] eqn:Hstop.
        rewrite (stop_recording basename l i m v answer w Hl Hv Hv' Hstop).
        cbn [emitted]. rewrite !filter_snoc, !filter_app, Hs, Hp, Ht.
        destruct (succeeded answer); simpl; split_and!; lia.
      * rewrite (stop_not_recording basename l i m v Hl Hv Hv').
        destruct (http (PutRecordingName i basename)
                    (net (final (is_dvr_recording http i m)))) as [named w] eqn:Hput.
        pose proof (start_idle basename l i m v named w Hl Hv Hv' Hput) as Hrun.
        cbv zeta in Hrun. destruct (succeeded named).
        -- destruct (http (GetRecord i) w) as [answer w'].
           rewrite Hrun. cbn [emitted]. rewrite !filter_snoc, !filter_app, Hs, Hp, Ht.
           destruct (succeeded answer); simpl; split_and!; lia.
        -- rewrite Hrun. cbn [emitted]. rewrite !filter_snoc, !filter_app, Hs, Hp, Ht.
           simpl; split_and!; lia.
    + destruct (start_check_raises basename l i m e Hl Hv) as [_ ->].
      destruct (stop_check_raises basename l i m e Hl Hv) as [_ ->].
      rewrite Hs, Hp, Ht. simpl. split_and!; lia.
  - rewrite (start_unmapped basename l m Hl), (stop_unmapped basename l m Hl).
    simpl. split_and!; lia.
Qed.

(** X8.  A stop for a source that is recording: after the status check it
    sends one stop request for the source id of the logical name and
    returns, whatever the recorder answers; a refused stop is only logged. *)
Theorem stop_sends_one_stop (b : json) (l : string) (i : Z) (m : machine)
    v stopped w :
  logical_name_to_dvr_source_id !! l = Some i →
  result (is_dvr_recording http i m) = Ret v →
  truthy v = true →
  http (GetStop i) (net (final (is_dvr_recording http i m))) = (stopped, w) →
  let o := stop_secondary_recording http b (JStr l) m in
  result o = Ret () ∧
  net (final o) = w ∧
  filter (λ e, is_http e = true) (emitted o) = [Http GetSources; Http (GetStop i)] ∧
  last (emitted o)
  = Some (if succeeded stopped
          then Log Info (StoppedRecording (JStr l))
          else Log Error (FailedStopRecording (JStr l))).
Proof.
  intros Hl Hv Ht Hstop o. subst o.
  rewrite (stop_recording b l i m v stopped w Hl Hv Ht Hstop).
  cbn [result final emitted answered net]. split; [done|]. split; [done|]. split.
  - rewrite filter_app, is_dvr_recording_requests.
    by destruct (succeeded stopped).
  - by rewrite last_app.
Qed.

(** X9.  A start whose record request fails: on an idle source whose name
    PUT went through, the failure is logged and the start returns normally;
    the name stays set, and nothing further is sent. *)
Theorem refused_record_is_only_logged (b : json) (l : string) (i : Z)
    (m : machine) v named w w' :
  logical_name_to_dvr_source_id !! l = Some i →
  result (is_dvr_recording http i m) = Ret v →
  truthy v = false →
  http (PutRecordingName i b) (net (final (is_dvr_recording http i m))) = (named, w) →
  succeeded named = true →
  http (GetRecord i) w = (RequestFailed, w') →
  start_secondary_recording http b (JStr l) m =
    Outcome (Ret ()) (answered (final (is_dvr_recording http i m)) w')
      (emitted (is_dvr_recording http i m) ++
       [Http (PutRecordingName i b); Log Info (RecordingNameSet b (JStr l));
        Http (GetRecord i); Log Error (FailedStartRecording (JStr l))]).
Proof.
  intros Hl Hv Ht Hput Hok Hrec.
  pose proof (start_idle b l i m v named w Hl Hv Ht Hput) as Hrun.
  cbv zeta in Hrun. by rewrite Hok, Hrec in Hrun.
Qed.

(** The status check on a well-formed answer returns the entry's
    [is_recording] value, or false when the entry has none. *)
Lemma status_check_reads_flag (i : Z) (m : machine) sources fields w :
  http GetSources (net m) = (Body (JList sources), w) →
  0 ≤ i →
  sources !! Z.to_nat i = Some (JObj fields) →
  is_dvr_recording http i m =
    Outcome (Ret (default (JBool false) (assoc "is_recording" fields)))
            (answered m w) [Http GetSources].
Proof.
  intros Hs Hi Hentry. unfold is_dvr_recording, mbind, M_bind, bind.
  rewrite (send_run _ _ _ _ Hs). simpl.
  assert (Hrange : (0 <=? i) && (i <? Z.of_nat (length sources)) = true).
  { apply lookup_lt_Some in Hentry. apply andb_true_intro. split; lia. }
  rewrite Hrange, Hentry. done.
Qed.

(** ** More on the state store *)

Lemma save_state_refused (m : machine) :
  disk m ≠ Writable →
  result (save_state m) = Ret () ∧
  state_file (final (save_state m)) = state_file m ∧
  ∃ msg, emitted (save_state m) = [Log Error msg] ∧
         (msg = FailedSaveState ∨ msg = UnexpectedSaveError).
Proof.
  intros Hd. unfold save_state, mbind, M_bind, bind, read_disk, get_previous, write_file.
  simpl. destruct (disk m) eqn:Hw; simpl; try done.
  - split; [done|]. split; [done|]. exists FailedSaveState. by split; [|left].
  - destruct (joined (previous_active_jobs m)); simpl.
    + split; [done|]. split; [done|]. exists FailedSaveState. by split; [|left].
    + split; [done|]. split; [done|]. exists UnexpectedSaveError. by split; [|right].
Qed.

Lemma load_state_reads_file (m1 m2 : machine) :
  state_file m1 = state_file m2 →
  previous_active_jobs (final (load_state m1))
  = previous_active_jobs (final (load_state m2)).
Proof.
  intros Hf. unfold load_state, mbind, M_bind, bind. simpl. rewrite Hf.
  by destruct (state_file m2) as [| |[[]|]].
Qed.

(** X10.  A save the file system refuses is only logged.  When the state
    file cannot be written, a cycle whose locked part completes has replaced
    the stored snapshot by the current one while the state file is as it was
    before, and the refusal is the last line of its log; a restart from there
    loads what a restart before the cycle would have loaded. *)
Theorem refused_save_splits_memory_from_file
    (cur : gmap (list atom) json) (m : machine) :
  disk m ≠ Writable →
  result (reconcile http cur m) = Ret () →
  let o := reconcile http cur m in
  previous_active_jobs (final o) = cur ∧
  state_file (final o) = state_file m ∧
  (∃ msg, last (emitted o) = Some (Log Error msg) ∧
          (msg = FailedSaveState ∨ msg = UnexpectedSaveError)) ∧
  previous_active_jobs (final (load_state (final o)))
  = previous_active_jobs (final (load_state m)).
Proof.
  intros Hd Hret o. subst o.
  pose proof (reconcile_run cur m) as Hrun. cbv zeta in Hrun.
  pose proof (reconcile_stored cur m) as Hst. rewrite Hret in Hst.
  destruct (result (forM_ (start_job http cur) _ m)) as [[]|e1] eqn:Hs;
    [|destruct Hrun as (Hr & _); congruence].
  destruct (result (forM_ (stop_job http (previous_active_jobs m)) _ _))
    as [[]|e2] eqn:Ht; [|destruct Hrun as (Hr & _); congruence].
  destruct Hrun as (_ & Hfin & Hem).
  match type of Hfin with _ = final (save_state ?r) =>
    destruct (save_state_refused r Hd) as (_ & Hfile & msg & Hlog & Hmsg) end.
  assert (Hsame : state_file (final (reconcile http cur m)) = state_file m)
    by by rewrite Hfin, Hfile.
  split; [done|]. split; [done|]. split.
  - exists msg. split; [|done]. rewrite Hem, Hlog, app_assoc. by rewrite last_app.
  - by apply load_state_reads_file.
Qed.

Lemma save_state_unjoinable (m : machine) :
  joined (previous_active_jobs m) = None →
  disk m ≠ NoDirectory →
  save_state m = Outcome (Ret ()) m [Log Error UnexpectedSaveError].
Proof.
  intros Hnone Hd. destruct m as [n f d p]. simpl in *.
  unfold save_state, mbind, M_bind, bind, read_disk, get_previous, write_file.
  simpl. destruct d; try done; simpl; by rewrite Hnone.
Qed.

(** X11.  A key with a component that is not a string cannot be written
    down.  With such a key in the stored snapshot (a job whose id the
    primary system gives as a number), a save logs an unexpected error and
    leaves the machine, state file included, as it was, and the status
    surface raises instead of answering. *)
Theorem non_string_key_is_never_persisted (m : machine) (k : list atom) :
  k ∈ dom (previous_active_jobs m) →
  join_key k = None →
  disk m ≠ NoDirectory →
  result (save_state m) = Ret () ∧
  final (save_state m) = m ∧
  emitted (save_state m) = [Log Error UnexpectedSaveError] ∧
  ∃ e, get_current_status (previous_active_jobs m) = Raise e.
Proof.
  intros Hk Hjoin Hd.
  pose proof (joined_None _ _ Hk Hjoin) as Hnone.
  rewrite (save_state_unjoinable m Hnone Hd). cbn [result final emitted].
  split; [done|]. split; [done|]. split; [done|].
  - apply elem_of_dom in Hk as [v Hv]. unfold get_current_status.
    destruct (res_mapM_raises status_item (map_to_list (previous_active_jobs m)) (k, v))
      as [e He].
    + by apply elem_of_map_to_list.
    + exists TypeError. unfold status_item. simpl. by rewrite Hjoin.
    + exists e. by rewrite He.
Qed.

(** X12.  What [load_state] makes of a state file that holds an object (its
    items being those of a dictionary, so with distinct keys): every item of
    the file is stored, under its key split at ['|'], with its value as it
    is; nothing else is stored; and every stored key is a non-empty tuple of
    strings none of which holds the separator. *)
Theorem load_state_stores_split_keys (m : machine) (data : list (string * json)) :
  state_file m = Holds (Some (JObj data)) →
  NoDup data.*1 →
  let loaded := previous_active_jobs (final (load_state m)) in
  (∀ s v, (s, v) ∈ data → loaded !! split_key s = Some v) ∧
  (∀ k v, loaded !! k = Some v → ∃ s, (s, v) ∈ data ∧ k = split_key s) ∧
  (∀ k, k ∈ dom loaded → loaded_key k) ∧
  size loaded = length data.
Proof.
  intros Hf Hnodup loaded.
  destruct (load_state_object m data Hf) as [_ Hp]. subst loaded. rewrite Hp.
  assert (Hnd : NoDup (split_item <$> data).*1).
  { rewrite <- list_fmap_compose.
    assert (Heq : (fst ∘ split_item <$> data) = split_key <$> data.*1).
    { rewrite <- list_fmap_compose. apply list_fmap_ext. by intros _ [s v] _. }
    rewrite Heq. apply NoDup_fmap_2; [|done]. intros s t. apply split_key_inj. }
  split_and!.
  - intros s v Hin. rewrite lookup_split_items. by apply elem_of_list_to_map_1.
  - intros k v Hk. apply elem_of_list_to_map_2 in Hk.
    apply list_elem_of_fmap in Hk as ([s v'] & [= -> ->] & Hin). by exists s.
  - apply dom_split_items.
  - rewrite <- size_dom, dom_list_to_map_L, size_list_to_set by done.
    by rewrite !length_fmap.
Qed.

(** X13.  An identifier that holds the separator does not survive a
    restart.  A job stored under a pair of strings one of which holds ['|']
    is saved under the joined key; after a restart the snapshot holds its
    record under a longer key and nothing under the pair, so in the next
    cycle a scan that still finds the job counts the pair as a new job and
    the longer key, with the same record, as a stopped one. *)
Theorem separator_in_id_breaks_roundtrip (m : machine) (a b : string) (v : json)
    (stale : gmap (list atom) json) :
  disk m = Writable →
  (∀ k, k ∈ dom (previous_active_jobs m) → is_Some (join_key k)) →
  unambiguous (previous_active_jobs m) [AStr a; AStr b] →
  previous_active_jobs m !! [AStr a; AStr b] = Some v →
  occurs "|" a || occurs "|" b = true →
  let saved := final (save_state m) in
  let restarted := Machine (net saved) (state_file saved) (disk saved) stale in
  let reloaded := previous_active_jobs (final (load_state restarted)) in
  let longer := split_key (join "|" [a; b]) in
  reloaded !! [AStr a; AStr b] = None ∧
  reloaded !! longer = Some v ∧
  (2 < length longer)%nat ∧
  ∀ cur, cycle_shaped cur → [AStr a; AStr b] ∈ dom cur →
    [AStr a; AStr b] ∈ new_jobs cur reloaded ∧ longer ∈ stopped_jobs cur reloaded.
Proof.
  intros Hw Hkeys Hone Hv Hsep saved restarted reloaded longer.
  destruct (joined_strings _ Hkeys) as [data Hdata].
  assert (Hsaved : data !! join "|" [a; b] = Some v)
    by by eapply joined_lookup.
  subst reloaded restarted saved.
  rewrite (save_state_writes m _ Hw Hdata). cbn [final net state_file disk].
  match goal with |- context [load_state ?r] =>
    destruct (load_state_object r (map_to_list data) eq_refl) as [_ Hp] end.
  rewrite Hp. clear Hp.
  assert (Hlong : (2 < length longer)%nat) by by apply split_joined_pair_long.
  assert (Hnone : (list_to_map (split_item <$> map_to_list data)
                     : gmap (list atom) json) !! [AStr a; AStr b] = None).
  { apply not_elem_of_dom. intros Hin%dom_split_items.
    destruct Hin as [_ Hall]. apply Forall_cons in Hall as [(a' & [= <-] & Ha) Hall].
    apply Forall_cons in Hall as [(b' & [= <-] & Hb) _].
    by rewrite Ha, Hb in Hsep. }
  assert (Hsome : (list_to_map (split_item <$> map_to_list data)
                     : gmap (list atom) json) !! longer = Some v).
  { subst longer. by rewrite lookup_split_items, list_to_map_to_list. }
  split; [done|]. split; [done|]. split; [done|].
  intros cur Hshape Hin. unfold new_jobs, stopped_jobs. split.
  - apply elem_of_difference. split; [done|]. by apply not_elem_of_dom.
  - apply elem_of_difference. split; [apply elem_of_dom; by eexists|].
    intros [v' Hv']%elem_of_dom. destruct (Hshape _ _ Hv') as [Hlen _]. lia.
Qed.

(** X14.  On a snapshot of records under string keys the status surface
    and the state file agree: what the status surface answers is the object
    a save writes to the file, and it has as many items as the snapshot has
    jobs when no two keys join to the same string. *)
Theorem status_agrees_with_saved_file (m : machine) :
  recorded (previous_active_jobs m) →
  disk m = Writable →
  ∃ data,
    get_current_status (previous_active_jobs m) = Ret data ∧
    state_file (final (save_state m)) = Holds (Some (JObj (map_to_list data))) ∧
    ((∀ k, k ∈ dom (previous_active_jobs m) → unambiguous (previous_active_jobs m) k) →
     size data = size (previous_active_jobs m)).
Proof.
  intros Hrec Hw. destruct (joined_recorded _ Hrec) as [data Hdata].
  exists data. split; [by apply status_is_joined|].
  split; [by rewrite (save_state_writes m _ Hw Hdata)|].
  intros Hone. revert Hdata. unfold joined.
  destruct (mapM join_item _) as [L|] eqn:HL; [|done]. intros [= <-].
  apply mapM_Some in HL.
  assert (Hnd : NoDup L.*1).
  { apply NoDup_alt. intros i j s Hi Hj.
    apply list_lookup_fmap_Some_1 in Hi as ([s1 v1] & [= <-] & Hi).
    apply list_lookup_fmap_Some_1 in Hj as ([s2 v2] & Hs & Hj). simpl in Hs. subst s2.
    destruct (Forall2_lookup_r _ _ _ _ _ HL Hi) as ([k1 w1] & Hi' & Hitem1).
    destruct (Forall2_lookup_r _ _ _ _ _ HL Hj) as ([k2 w2] & Hj' & Hitem2).
    apply join_item_Some in Hitem1 as [Hk1 _]. apply join_item_Some in Hitem2 as [Hk2 _].
    simpl in Hk1, Hk2.
    assert (Hin1 : k1 ∈ dom (previous_active_jobs m)).
    { apply elem_of_dom. exists w1. apply elem_of_map_to_list, list_elem_of_lookup.
      by exists i. }
    assert (Hin2 : k2 ∈ dom (previous_active_jobs m)).
    { apply elem_of_dom. exists w2. apply elem_of_map_to_list, list_elem_of_lookup.
      by exists j. }
    assert (k2 = k1) as -> by (apply (Hone k1 Hin1 k2 Hin2); congruence).
    pose proof (NoDup_fst_map_to_list (previous_active_jobs m)) as Hkeys.
    eapply (proj1 (NoDup_alt _) Hkeys i j k1); by rewrite list_lookup_fmap, ?Hi', ?Hj'. }
  rewrite <- size_dom, dom_list_to_map_L, size_list_to_set by done.
  rewrite length_fmap, <- (Forall2_length _ _ _ HL). by rewrite length_map_to_list.
Qed.

Lemma source_id_in_table (l : string) (i : Z) :
  logical_name_to_dvr_source_id !! l = Some i → 0 ≤ i ≤ 3.
Proof.
  unfold logical_name_to_dvr_source_id. intros Hl%elem_of_list_to_map_2.
  repeat (apply elem_of_cons in Hl as [[= _ ->]|Hl]; [lia|]).
  by apply elem_of_nil in Hl.
Qed.

(** X15.  The [is_recording] value of the source's entry decides which of
    the two actions acts.  On a sources list with an object at the source
    id, a start sends its name PUT exactly when the value is falsy or
    missing, a stop sends its stop request exactly when the value is truthy,
    and either of them sends the status request first. *)
Theorem flag_decides_which_action_acts (b : json) (l : string) (i : Z)
    (m : machine) sources fields w :
  logical_name_to_dvr_source_id !! l = Some i →
  http GetSources (net m) = (Body (JList sources), w) →
  sources !! Z.to_nat i = Some (JObj fields) →
  let flag := truthy (default (JBool false) (assoc "is_recording" fields)) in
  let started := emitted (start_secondary_recording http b (JStr l) m) in
  let stopped := emitted (stop_secondary_recording http b (JStr l) m) in
  head started = Some (Http GetSources) ∧
  head stopped = Some (Http GetSources) ∧
  filter (λ e, is_put e = true) started
  = (if flag then [] else [Http (PutRecordingName i b)]) ∧
  filter (λ e, is_stop e = true) stopped
  = (if flag then [Http (GetStop i)] else []).
Proof.
  intros Hl Hs Hentry flag started stopped.
  pose proof (source_id_in_table l i Hl) as [Hi _].
  pose proof (status_check_reads_flag i m sources fields w Hs Hi Hentry) as Hcheck.
  assert (Hv : result (is_dvr_recording http i m)
               = Ret (default (JBool false) (assoc "is_recording" fields)))
    by by rewrite Hcheck.
  subst started stopped. destruct flag eqn:Hflag; subst flag.
  - rewrite (start_already_recording b l i m _ Hl Hv Hflag).
    destruct (http (GetStop i) (net (final (is_dvr_recording http i m))))
      as [answer w'] eqn:Hstop.
    rewrite (stop_recording b l i m _ answer w' Hl Hv Hflag Hstop).
    rewrite Hcheck. cbn [emitted app head]. split; [done|]. split; [done|].
    split; [done|]. by destruct (succeeded answer).
  - rewrite (stop_not_recording b l i m _ Hl Hv Hflag).
    destruct (http (PutRecordingName i b) (net (final (is_dvr_recording http i m))))
      as [named w'] eqn:Hput.
    pose proof (start_idle b l i m _ named w' Hl Hv Hflag Hput) as Hrun.
    cbv zeta in Hrun. destruct (succeeded named).
    + destruct (http (GetRecord i) w') as [started w''].
      rewrite Hrun, Hcheck. cbn [emitted app head]. split; [done|]. split; [done|].
      split; [|done]. by destruct (succeeded started).
    + rewrite Hrun, Hcheck. by cbn [emitted app head].
Qed.

(** ** More on basenames *)

Lemma first_primary_odd_name f v rest :
  assoc "presetTag" f = Some (JStr "Primary") →
  assoc "fileName" f = Some v →
  truthy v = true →
  (∀ s, v ≠ JStr s) →
  first_primary (JObj f :: rest) = Raise AttributeError.
Proof.
  intros Htag Hname Hv Hodd. simpl. rewrite Htag, Hname. simpl. rewrite Hv.
  destruct v; try done. by destruct (Hodd s).
Qed.

(** X16.  A primary file whose name is only an extension leaves the job
    out.  When the first primary entry with a file name has a name of the
    form [.x] with no further ['.'], the basename is the empty string and
    the scan of the job returns the current set as it was, whatever entries
    follow it in the listing. *)
Theorem extension_only_name_excludes_job (ingest_id : json) (logical_name : string)
    (cur : gmap (list atom) json) (job job_id : json) (m : machine)
    info w pre f post x :
  py_get "id" JNull job = Ret job_id →
  http (GetFiles ingest_id job_id) (net m) = (Body (JObj info), w) →
  assoc "data" info = Some (JList (pre ++ JObj f :: post)) →
  forallb passed_over pre = true →
  assoc "presetTag" f = Some (JStr "Primary") →
  assoc "fileName" f = Some (JStr (String "." x)) →
  occurs "." x = false →
  result (extract_basename http ingest_id job_id m) = Ret (Some "") ∧
  result (scan_job http ingest_id logical_name cur job m) = Ret cur.
Proof.
  intros Hid Hf Hdata Hpre Htag Hname Hx.
  assert (Hb : result (extract_basename http ingest_id job_id m) = Ret (Some "")).
  { destruct (extract_basename_listing _ _ _ _ _ Hf) as [-> _].
    rewrite (extract_listing _ _ Hdata), first_primary_skip by done.
    rewrite (first_primary_hit f (String "." x) post Htag Hname) by done.
    unfold rsplit1_head. simpl. by rewrite (before_last_none "." x Hx). }
  split; [done|]. unfold scan_job. rewrite Hid, bind_lift_Ret. by returns Hb.
Qed.

(** X17.  A primary file whose name is not a string stops the scan.  When
    the first primary entry with a truthy file name has a name that is a
    number, a list or an object, the extraction raises [AttributeError], the
    scan of the job raises it too, and the stored snapshot and the state
    file are as they were. *)
Theorem odd_file_name_raises (ingest_id : json) (logical_name : string)
    (cur : gmap (list atom) json) (job job_id : json) (m : machine)
    info w pre f post v :
  py_get "id" JNull job = Ret job_id →
  http (GetFiles ingest_id job_id) (net m) = (Body (JObj info), w) →
  assoc "data" info = Some (JList (pre ++ JObj f :: post)) →
  forallb passed_over pre = true →
  assoc "presetTag" f = Some (JStr "Primary") →
  assoc "fileName" f = Some v →
  truthy v = true →
  (∀ s, v ≠ JStr s) →
  let o := scan_job http ingest_id logical_name cur job m in
  extract_primary_file_basename (JObj info) = Raise AttributeError ∧
  result o = Raise AttributeError ∧
  previous_active_jobs (final o) = previous_active_jobs m ∧
  state_file (final o) = state_file m.
Proof.
  intros Hid Hf Hdata Hpre Htag Hname Hv Hodd o.
  assert (Hx : extract_primary_file_basename (JObj info) = Raise AttributeError).
  { rewrite (extract_listing _ _ Hdata), first_primary_skip by done.
    by apply first_primary_odd_name with v. }
  split; [done|]. split.
  - destruct (extract_basename_listing _ _ _ _ _ Hf) as [Hb _]. rewrite Hx in Hb.
    subst o. unfold scan_job. rewrite Hid, bind_lift_Ret. by raises Hb.
  - destruct (quiet_scan_job ingest_id logical_name cur job m) as (Hfile & _ & Hprev).
    by subst o.
Qed.

(** ** Jobs of an ingest the table does not know *)

(** A fold that meets an item on which the step establishes a property
    that every step keeps returns with the property. *)
Lemma foldM_reaches {A B} (I : A → Prop) (f : A → B → M A) (l : list B) (x : B) :
  x ∈ l →
  (∀ a y (m : machine) a', I a → result (f a y m) = Ret a' → I a') →
  (∀ a (m : machine) a', result (f a x m) = Ret a' → I a') →
  ∀ a (m : machine) a', result (foldM f a l m) = Ret a' → I a'.
Proof.
  intros Hx Hkeep Hset. induction l as [|y l IH]; intros a m a' Hret.
  - by apply elem_of_nil in Hx.
  - simpl in Hret. destruct (bind_Ret_inv _ _ _ _ Hret) as (a1 & H1 & H2).
    apply elem_of_cons in Hx as [->|Hx].
    + eapply (foldM_keeps I f l Hkeep); [|exact H2]. by eapply Hset.
    + by eapply IH.
Qed.

Lemma unlisted_name (ingest_id : json) :
  unlisted ingest_id = true → logical_name_of ingest_id = Ret "Unknown Ingest".
Proof.
  unfold logical_name_of. destruct ingest_id as [| | |s| |]; simpl; try done.
  by destruct (ingest_id_map !! s).
Qed.

(** Among the values that can be key components, only an unlisted id
    itself gives the component of an unlisted id. *)
Lemma unlisted_hashable_inj (ingest_id other : json) (i : atom) :
  unlisted ingest_id = true →
  hashable ingest_id = Ret i →
  hashable other = Ret i →
  other = ingest_id.
Proof.
  destruct ingest_id as [| | |s| |]; simpl; try done; intros _ [= <-];
    destruct other; simpl; try done; by intros [= ->].
Qed.

Lemma hashable_string (v : json) (j : string) :
  hashable v = Ret (AStr j) → v = JStr j.
Proof. destruct v; simpl; try done. by intros [= ->]. Qed.

(** A file listing that the primary system gives whenever it is asked. *)
Lemma extract_basename_fixed (ingest_id job_id : json) info (m : machine) :
  (∀ w, (http (GetFiles ingest_id job_id) w).1 = Body (JObj info)) →
  result (extract_basename http ingest_id job_id m)
  = extract_primary_file_basename (JObj info).
Proof.
  intros Hfiles. specialize (Hfiles (net m)).
  destruct (http (GetFiles ingest_id job_id) (net m)) as [answer w] eqn:Hf.
  simpl in Hfiles. subst answer.
  by destruct (extract_basename_listing _ _ _ _ _ Hf).
Qed.

(** What the scan of one job can do to the current set. *)
Lemma scan_job_inv (ingest_id : json) (l : string) (cur : gmap (list atom) json)
    (job : json) (m : machine) cur' :
  result (scan_job http ingest_id l cur job m) = Ret cur' →
  cur' = cur ∨
  ∃ job_id b i j,
    py_get "id" JNull job = Ret job_id ∧
    result (extract_basename http ingest_id job_id m) = Ret (Some b) ∧
    b ≠ "" ∧
    hashable ingest_id = Ret i ∧
    hashable job_id = Ret j ∧
    cur' = <[ [i; j] := job_record b l ]> cur.
Proof.
  unfold scan_job. intros Hret.
  destruct (bind_Ret_inv _ _ _ _ Hret) as (job_id & Hid & Hret1). clear Hret.
  apply lift_Ret_inv in Hid. cbn [lift final] in Hret1.
  destruct (bind_Ret_inv _ _ _ _ Hret1) as ([b|] & Hb & Hret2); clear Hret1;
    [|left; by injection Hret2 as <-].
  cbn [truthy] in Hret2. destruct (String.eqb_spec b "") as [Hne|Hne];
    cbn [negb] in Hret2; [left; by injection Hret2 as <-|].
  destruct (bind_Ret_inv _ _ _ _ Hret2) as (i & Hi & Hret3). clear Hret2.
  apply lift_Ret_inv in Hi.
  destruct (bind_Ret_inv _ _ _ _ Hret3) as (j & Hj & Hret4). clear Hret3.
  apply lift_Ret_inv in Hj. injection Hret4 as <-.
  right. by exists job_id, b, i, j.
Qed.

Section Unlisted.

Variables (ingest_id : json) (i : atom) (j : string).
Variables (info : list (string * json)) (b : string).
Hypothesis Hunlisted : unlisted ingest_id = true.
Hypothesis Hkey : hashable ingest_id = Ret i.
Hypothesis Hfiles : ∀ w, (http (GetFiles ingest_id (JStr j)) w).1 = Body (JObj info).
Hypothesis Hbasename : extract_primary_file_basename (JObj info) = Ret (Some b).
Hypothesis Hnamed : b ≠ "".

Lemma scan_job_keeps_kept (other : json) (l : string) cur job (m : machine) cur' :
  (other = ingest_id → l = "Unknown Ingest") →
  kept i j b cur →
  result (scan_job http other l cur job m) = Ret cur' →
  kept i j b cur'.
Proof.
  intros Hl Hcur Hret. unfold kept.
  destruct (scan_job_inv _ _ _ _ _ _ Hret)
    as [->|(job_id & b' & i' & j' & Hid & Hb & Hne & Hi & Hj & ->)]; [done|].
  destruct (decide ([i'; j'] = [i; AStr j])) as [[= -> ->]|Hother].
  - assert (other = ingest_id) as ->
      by (by eapply unlisted_hashable_inj).
    apply hashable_string in Hj as ->.
    rewrite (extract_basename_fixed _ _ _ _ Hfiles), Hbasename in Hb.
    injection Hb as <-. by rewrite lookup_insert_eq, Hl.
  - by rewrite lookup_insert_ne.
Qed.

Lemma scan_job_sets_kept cur (job : list (string * json)) (m : machine) cur' :
  assoc "id" job = Some (JStr j) →
  result (scan_job http ingest_id "Unknown Ingest" cur (JObj job) m) = Ret cur' →
  kept i j b cur'.
Proof.
  intros Hid Hret.
  assert (Hget : py_get "id" JNull (JObj job) = Ret (JStr j))
    by (simpl; by rewrite Hid).
  assert (Hb : result (extract_basename http ingest_id (JStr j) m) = Ret (Some b))
    by by rewrite (extract_basename_fixed _ _ _ _ Hfiles).
  rewrite (scan_job_included _ _ _ _ _ _ _ _ _ Hget Hb Hnamed Hkey eq_refl) in Hret.
  injection Hret as <-. unfold kept. by rewrite lookup_insert_eq.
Qed.

Lemma scan_ingest_keeps_kept cur (ingest : json) (m : machine) cur' :
  kept i j b cur →
  result (scan_ingest http cur ingest m) = Ret cur' →
  kept i j b cur'.
Proof.
  intros Hcur. unfold scan_ingest. intros Hret.
  destruct (bind_Ret_inv _ _ _ _ Hret) as (other & _ & Hret1). clear Hret.
  destruct (bind_Ret_inv _ _ _ _ Hret1) as (l & Hl & Hret2). clear Hret1.
  apply lift_Ret_inv in Hl.
  destruct (bind_Ret_inv _ _ _ _ Hret2) as (jobs & _ & Hret3). clear Hret2.
  revert Hret3. apply foldM_keeps; [|done].
  intros a x m' a'. apply scan_job_keeps_kept.
  intros ->. rewrite (unlisted_name _ Hunlisted) in Hl. by injection Hl as <-.
Qed.

Lemma scan_ingest_sets_kept cur (ingest job : list (string * json)) jobs
    (m : machine) cur' :
  default JNull (assoc "ingestId" ingest) = ingest_id →
  assoc "activeJobsInfo" ingest = Some (JList jobs) →
  JObj job ∈ jobs →
  assoc "id" job = Some (JStr j) →
  result (scan_ingest http cur (JObj ingest) m) = Ret cur' →
  kept i j b cur'.
Proof.
  intros Hid Hjobs Hjob Hj. unfold scan_ingest.
  assert (H1 : py_get "ingestId" JNull (JObj ingest) = Ret ingest_id)
    by (simpl; by rewrite Hid).
  assert (H2 : py_get "activeJobsInfo" (JList []) (JObj ingest) ≫= py_iter = Ret jobs)
    by (simpl; by rewrite Hjobs).
  rewrite H1, bind_lift_Ret, (unlisted_name _ Hunlisted), bind_lift_Ret,
    H2, bind_lift_Ret.
  apply (foldM_reaches (kept i j b) _ jobs (JObj job) Hjob).
  - intros a y m' a'. by apply scan_job_keeps_kept.
  - intros a m' a'. by apply scan_job_sets_kept.
Qed.

Lemma scan_sets_kept (entries : list json) (ingest job : list (string * json)) jobs
    cur (m : machine) cur' :
  JObj ingest ∈ entries →
  default JNull (assoc "ingestId" ingest) = ingest_id →
  assoc "activeJobsInfo" ingest = Some (JList jobs) →
  JObj job ∈ jobs →
  assoc "id" job = Some (JStr j) →
  result (foldM (scan_ingest http) cur entries m) = Ret cur' →
  kept i j b cur'.
Proof.
  intros Hentry Hid Hjobs Hjob Hj.
  apply (foldM_reaches (kept i j b) _ entries (JObj ingest) Hentry).
  - intros a y m' a'. apply scan_ingest_keeps_kept.
  - intros a m' a'. by eapply scan_ingest_sets_kept.
Qed.

End Unlisted.

(** The parts of a cycle that completes. *)
Lemma completed_cycle_parts (m : machine) :
  result (process_polling_cycle http m) = Ret () →
  ∃ entries cur (scanned : machine) fetching,
    result (get_active_jobs_info http m) = Ret entries ∧
    result (foldM (scan_ingest http) ∅ entries (final (get_active_jobs_info http m)))
    = Ret cur ∧
    state_file scanned = state_file m ∧
    disk scanned = disk m ∧
    previous_active_jobs scanned = previous_active_jobs m ∧
    result (reconcile http cur scanned) = Ret () ∧
    final (process_polling_cycle http m) = final (reconcile http cur scanned) ∧
    emitted (process_polling_cycle http m)
    = fetching ++ emitted (reconcile http cur scanned).
Proof.
  unfold process_polling_cycle. intros Hret.
  destruct (bind_Ret_inv _ _ _ _ Hret) as (entries & Hget & Hret1).
  revert Hret. returns Hget. intros _.
  destruct (bind_Ret_inv _ _ _ _ Hret1) as (cur & Hscan & Hret2).
  returns Hscan.
  destruct (quiet_get_active_jobs_info m) as (Hf1 & Hd1 & Hp1).
  destruct (quiet_scan entries ∅ (final (get_active_jobs_info http m)))
    as (Hf2 & Hd2 & Hp2).
  exists entries, cur,
    (final (foldM (scan_ingest http) ∅ entries (final (get_active_jobs_info http m)))).
  eexists. split; [done|]. split; [done|].
  split; [by rewrite Hf2, Hf1|]. split; [by rewrite Hd2, Hd1|].
  split; [by rewrite Hp2, Hp1|]. split; [done|]. split; [done|].
  by rewrite app_assoc.
Qed.

(** The save at the end of a locked part that completes. *)
Lemma reconcile_completed (cur : gmap (list atom) json) (m : machine) :
  result (reconcile http cur m) = Ret () →
  ∃ w acted,
    let replaced := Machine w (state_file m) (disk m) cur in
    final (reconcile http cur m) = final (save_state replaced) ∧
    emitted (reconcile http cur m) = acted ++ emitted (save_state replaced).
Proof.
  intros Hret. pose proof (reconcile_run cur m) as Hrun. cbv zeta in Hrun.
  destruct (result (forM_ (start_job http cur) _ m)) as [[]|] eqn:Hstarts;
    [|destruct Hrun as (Hr & _); congruence].
  destruct (result (forM_ (stop_job http _) _ _)) as [[]|] eqn:Hstops;
    [|destruct Hrun as (Hr & _); congruence].
  destruct Hrun as (_ & -> & ->). eexists. eexists. cbv zeta.
  split; [done|]. by rewrite app_assoc.
Qed.

Lemma status_raises_on_key (jobs : gmap (list atom) json) (k : list atom) :
  k ∈ dom jobs → join_key k = None → ∃ e, get_current_status jobs = Raise e.
Proof.
  intros [v Hv]%elem_of_dom Hjoin. unfold get_current_status.
  destruct (res_mapM_raises status_item (map_to_list jobs) (k, v)) as [e He].
  - by apply elem_of_map_to_list.
  - exists TypeError. unfold status_item. simpl. by rewrite Hjoin.
  - exists e. by rewrite He.
Qed.


End Properties.

(** * The properties on the concrete scenes *)

(** The claim of C1 does not hold of the code: with the show stored and
    being recorded, a cycle whose fetch fails completes, empties the stored
    snapshot, rewrites the state file, empties the status surface and sends
    the recorder a stop. *)
Lemma failed_fetch_changes_state :
  let o := process_polling_cycle (recorder primary_down) recording_show in
  fetch_failed (recorder primary_down GetActiveJobs (net recording_show)).1 = true ∧
  result o = Ret () ∧
  previous_active_jobs (final o) ≠ previous_active_jobs recording_show ∧
  state_file (final o) ≠ state_file recording_show ∧
  get_current_status (previous_active_jobs (final o))
  ≠ get_current_status (previous_active_jobs recording_show) ∧
  Http (GetStop 0) ∈ emitted o.
Proof.
  intros o. split_and!.
  - reflexivity.
  - by vm_compute.
  - intros H. apply (f_equal (λ jobs, jobs !! show_key)) in H.
    by vm_compute in H.
  - by vm_compute.
  - intros H.
    apply (f_equal (λ r, match r with
                         | Ret shown => shown !! join "|" [pcr1; "j1"]
                         | Raise _ => None
                         end)) in H.
    by vm_compute in H.
  - assert (He : emitted o = [Http GetActiveJobs; Log Error FailedGetActiveJobs;
                              Http GetSources; Http (GetStop 0);
                              Log Info (StoppedRecording (JStr "PCR 1"))])
      by (by vm_compute).
    rewrite He. do 3 right. left.
Qed.

Lemma failed_fetch_runs_as_empty_on_show :
  let o := process_polling_cycle (recorder primary_down) recording_show in
  fetch_failed RequestFailed = true ∧
  result o = Ret () ∧
  stopped_jobs ∅ show_running = dom show_running ∧
  (∃ mk pre post,
     emitted o
     = pre ++ emitted (stop_secondary_recording (recorder primary_down)
                         (JStr "show_20240101") (JStr "PCR 1") mk) ++ post) ∧
  previous_active_jobs (final o) = ∅ ∧
  state_file (final o) = Holds (Some (JObj [])).
Proof.
  intros o.
  pose proof (failed_fetch_runs_as_empty (recorder primary_down) recording_show
                RequestFailed first_recording eq_refl eq_refl) as H.
  cbv zeta in H. destruct H as (_ & _ & _ & _ & _ & Hstop & Hrun & _ & H).
  assert (Hret : result o = Ret ()) by (vm_compute; reflexivity).
  destruct (Hrun show_key "show_20240101" "PCR 1" (lookup_singleton_eq _ _) Hret)
    as (mk & pre & post & _ & Hem).
  fold o in H. rewrite Hret in H. destruct H as (Hprev & _ & Hfile).
  split; [reflexivity|]. split; [exact Hret|]. split; [exact Hstop|].
  split; [by exists mk, pre, post|].
  split; [exact Hprev|exact (Hfile eq_refl)].
Defined.

(** C2 on a cycle that finds the show while a stray job is stored: the show
    is new, the stray job is stopped, and the show is what stays stored. *)
Lemma diff_on_show :
  let cur := show_running in
  let m := Machine all_idle Absent Writable {[ stray_key := stray_record ]} in
  let o := reconcile (recorder one_job) cur m in
  result o = Ret () ∧
  show_key ∈ new_jobs cur (previous_active_jobs m) ∧
  stray_key ∈ stopped_jobs cur (previous_active_jobs m) ∧
  (∀ k, ¬ (k ∈ new_jobs cur (previous_active_jobs m) ∧
           k ∈ stopped_jobs cur (previous_active_jobs m))) ∧
  dom (previous_active_jobs (final o)) = dom cur.
Proof.
  intros cur m o.
  assert (Hret : result o = Ret ()) by (vm_compute; reflexivity).
  destruct (diff_is_set_difference (recorder one_job) cur m Hret)
    as (Hnew & Hstop & _ & Hdisj & _ & Hstored).
  split; [exact Hret|]. split; [|split; [|split; [exact Hdisj|exact Hstored]]].
  - apply Hnew. split; [by apply elem_of_dom; eexists|].
    intros [v Hv]%elem_of_dom. by vm_compute in Hv.
  - apply Hstop. split; [by apply elem_of_dom; eexists|].
    intros [v Hv]%elem_of_dom. by vm_compute in Hv.
Defined.

Lemma show_key_plain : ∀ k, k ∈ dom show_running → plain_key k.
Proof.
  intros k Hk. unfold show_running in Hk. rewrite dom_singleton_L in Hk.
  apply elem_of_singleton in Hk as ->. exists pcr1, "j1". by split_and!.
Qed.

(** C3 on the stored show, and on the empty snapshot, read back by a
    process that starts with another snapshot in memory. *)
Lemma roundtrip_on_show :
  let saved := final (save_state (at_script show_running)) in
  let restarted := Machine (net saved) (state_file saved) (disk saved) with_stray in
  state_file saved = Holds (Some (JObj [(join "|" [pcr1; "j1"], show_record)])) ∧
  previous_active_jobs (final (load_state restarted)) = show_running ∧
  previous_active_jobs
    (final (load_state
       (Machine () (state_file (final (save_state (at_script ∅)))) Writable with_stray)))
  = ∅.
Proof.
  intros saved restarted. split; [reflexivity|]. split.
  - exact (proj2 (proj2 (save_load_roundtrip (at_script show_running) with_stray
                           eq_refl show_key_plain))).
  - refine (proj2 (proj2 (save_load_roundtrip (at_script ∅) with_stray eq_refl _))).
    intros k Hk. simpl in Hk. rewrite dom_empty_L in Hk. by apply elem_of_empty in Hk.
Defined.

(** C4 on the recorder: two starts in a row for "PCR 1" from an idle
    recorder issue one record request, and the second issues nothing but the
    status check. *)
Lemma start_twice_on_recorder :
  let start := start_secondary_recording (recorder one_job) (JStr "show") (JStr "PCR 1") in
  let first := start fresh in
  let second := start (final first) in
  logical_name_to_dvr_source_id !! "PCR 1" = Some 0 ∧
  net (final first) = first_recording ∧
  filter (λ e, is_start e = true) (emitted first ++ emitted second) = [Http (GetRecord 0)] ∧
  filter (λ e, is_http e = true) (emitted second) = [Http GetSources].
Proof.
  intros start first second.
  assert (Hl : logical_name_to_dvr_source_id !! "PCR 1" = Some 0) by reflexivity.
  destruct (start_is_idempotent (recorder one_job) (JStr "show") "PCR 1" 0 Hl)
    as [Hbusy Htwice].
  split; [exact Hl|]. split; [reflexivity|]. split.
  - exact (proj1 (Htwice fresh (JBool false) (Body JNull) all_idle (JBool true)
                    eq_refl eq_refl eq_refl eq_refl eq_refl eq_refl)).
  - exact (proj1 (proj2 (Hbusy (final first) (JBool true) eq_refl eq_refl))).
Defined.

(** C5 on the show's listing, whose primary file follows a proxy file, on
    a listing without a primary file, and on a listing that cannot be had. *)
Lemma basename_of_show :
  let found := extract_basename (scripted one_job) (JStr pcr1) (JStr "j1") (at_script ∅) in
  let job := JObj [("id", JStr "j2")] in
  result found = Ret (Some "show_20240101") ∧
  rsplit1_head "." "README" = "README" ∧
  rsplit1_head "." "take.one.mov" = "take.one" ∧
  result (extract_basename (scripted no_primary) (JStr pcr1) (JStr "j2") (at_script ∅))
  = Ret None ∧
  result (scan_job (scripted no_primary) (JStr pcr1) "PCR 1" show_running job (at_script ∅))
  = Ret show_running ∧
  result (scan_job (scripted primary_down) (JStr pcr1) "PCR 1" show_running job (at_script ∅))
  = Ret show_running.
Proof.
  intros found job.
  destruct (primary_basename (scripted one_job) (JStr pcr1) "PCR 1" ∅
              (JObj [("id", JStr "j1")]) (JStr "j1") (at_script ∅) _ ()
              eq_refl eq_refl) as [Hfound _].
  destruct (Hfound _
              [JObj [("presetTag", JStr "Proxy"); ("fileName", JStr "show_20240101_lo.mp4")]]
              [("presetTag", JStr "Primary"); ("fileName", JStr "show_20240101.mp4")]
              [] "show_20240101.mp4" eq_refl eq_refl eq_refl eq_refl eq_refl)
    as (Hres & _ & Hcut); [done|].
  destruct (primary_basename (scripted no_primary) (JStr pcr1) "PCR 1" show_running
              job (JStr "j2") (at_script ∅) _ () eq_refl eq_refl)
    as [_ Hnone].
  destruct (primary_basename (scripted primary_down) (JStr pcr1) "PCR 1" show_running
              job (JStr "j2") (at_script ∅) _ () eq_refl eq_refl)
    as [_ Hdown].
  split; [exact Hres|]. split; [reflexivity|]. split; [reflexivity|].
  split; [exact (proj1 (Hnone eq_refl))|].
  split; [exact (proj2 (Hnone eq_refl))|exact (proj2 (Hdown eq_refl))].
Defined.

(** The claim of C6 does not hold of the code for every ill-shaped payload:
    when the recorder's sources list is the list [[5]], the status check for
    source 0 raises instead of returning false, nothing is logged, and the
    start that asked for it raises with it, before any PUT. *)
Lemma status_check_raises_on_odd_sources :
  let check := is_dvr_recording (scripted odd_sources) 0 (at_script ∅) in
  let start :=
    start_secondary_recording (scripted odd_sources) (JStr "show") (JStr "PCR 1")
                              (at_script ∅) in
  (scripted odd_sources GetSources ()).1 = Body (JList [JNum 5]) ∧
  result check = Raise AttributeError ∧
  result check ≠ Ret (JBool false) ∧
  filter (λ e, is_error e = true) (emitted check) = [] ∧
  result start = Raise AttributeError ∧
  filter (λ e, is_put e = true) (emitted start) = [].
Proof. vm_compute. split_and!; try reflexivity. intros [=]. Qed.

(** C6 as amended, on a recorder that answers nothing: the status check
    says false, the start goes on to the PUT, the PUT fails, and no record
    request follows. *)
Lemma start_on_dead_recorder :
  let start :=
    start_secondary_recording (scripted recorder_down) (JStr "show") (JStr "PCR 1")
                              (at_script ∅) in
  unanswered 0 RequestFailed = true ∧
  result (is_dvr_recording (scripted recorder_down) 0 (at_script ∅)) = Ret (JBool false) ∧
  result start = Ret () ∧
  filter (λ e, is_start e = true) (emitted start) = [].
Proof.
  intros start.
  destruct (status_check_fails_closed (scripted recorder_down) (JStr "show") "PCR 1" 0
              (at_script ∅) RequestFailed () eq_refl eq_refl eq_refl)
    as ([msg Hcheck] & Hret & _ & Hput).
  split; [reflexivity|]. split; [by rewrite Hcheck|]. split; [exact Hret|].
  exact (proj2 (Hput () eq_refl)).
Defined.

(** C7 on a state file that is not JSON, with the show active in the next
    cycle. *)
Lemma load_garbled :
  let o := load_state garbled in
  let next := reconcile (scripted recorder_down) show_running (final o) in
  unusable (state_file garbled) = true ∧
  result o = Ret () ∧
  previous_active_jobs (final o) = ∅ ∧
  emitted o = [Log Error StateDecodeError] ∧
  new_jobs show_running (previous_active_jobs (final o)) = dom show_running ∧
  ∃ mk pre post,
    emitted next
    = pre ++ emitted (start_secondary_recording (scripted recorder_down)
                        (JStr "show_20240101") (JStr "PCR 1") mk) ++ post.
Proof.
  intros o next.
  destruct (load_state_fails_open (scripted recorder_down) garbled eq_refl)
    as (Hret & Hprev & _ & _ & Hlog & _ & Hnext).
  destruct (Hnext show_running) as (Hnew & _ & _ & Hstart).
  split; [reflexivity|]. split; [exact Hret|]. split; [exact Hprev|].
  split; [exact (Hlog eq_refl)|]. split; [exact Hnew|].
  exact (Hstart show_key "show_20240101" "PCR 1" eq_refl eq_refl).
Defined.

(** C8 on the show: when the primary system no longer lists it, the cycle
    stops it with the stored logical name, and a stop on an idle recorder
    only checks the status. *)
Lemma stop_show_from_store :
  let o := reconcile (recorder one_job) ∅ recording_show in
  let stop := stop_secondary_recording (recorder one_job)
                (JStr "show_20240101") (JStr "PCR 1") in
  show_key ∈ stopped_jobs ∅ (previous_active_jobs recording_show) ∧
  (∃ mk pre post, result (stop mk) = Ret () ∧ emitted o = pre ++ emitted (stop mk) ++ post) ∧
  Forall not_primary (emitted o) ∧
  filter (λ e, is_http e = true) (emitted (stop fresh)) = [Http GetSources].
Proof.
  intros o stop.
  assert (Hkey : show_key ∈ stopped_jobs ∅ (previous_active_jobs recording_show)).
  { unfold stopped_jobs. rewrite dom_empty_L, difference_empty_L.
    apply elem_of_dom. by eexists. }
  destruct (stop_uses_stored_record (recorder one_job) ∅ recording_show show_key
              "show_20240101" "PCR 1" Hkey eq_refl)
    as (_ & Hrun & Hquiet & Hidle).
  split; [exact Hkey|]. split; [exact (Hrun eq_refl)|]. split; [exact Hquiet|].
  exact (proj1 (proj2 (Hidle fresh 0 (JBool false) eq_refl eq_refl eq_refl))).
Defined.

Lemma with_stray_recorded : recorded with_stray.
Proof.
  intros k v. unfold with_stray, show_running.
  destruct (decide (k = stray_key)) as [->|Hk].
  - rewrite lookup_insert_eq. intros [= <-]. split; [by eexists|].
    by exists "clip", "Unknown Ingest".
  - rewrite lookup_insert_ne by done.
    destruct (decide (k = show_key)) as [->|Hk'].
    + rewrite lookup_singleton_eq. intros [= <-]. split; [by eexists|].
      by exists "show_20240101", "PCR 1".
    + by rewrite lookup_singleton_ne.
Qed.

Lemma stray_cycle_snapshot :
  map_to_list (previous_active_jobs
                 (final (process_polling_cycle (scripted stray_feed) (at_script ∅))))
  = [(stray_key, stray_record)].
Proof. by vm_compute. Qed.

Lemma stray_cycle_keys k :
  k ∈ dom (previous_active_jobs
             (final (process_polling_cycle (scripted stray_feed) (at_script ∅)))) →
  k = stray_key.
Proof.
  intros [v Hv]%elem_of_dom. apply elem_of_map_to_list in Hv.
  rewrite stray_cycle_snapshot in Hv. apply list_elem_of_singleton in Hv.
  by injection Hv.
Qed.




(** C10 on a listing with three entries tagged primary, the first of them
    without a file name. *)
Lemma first_named_primary_of_three :
  extract_primary_file_basename (JObj twice_primary) = Ret (Some "take.one").
Proof.
  exact (first_named_primary_wins twice_primary
           [JObj [("presetTag", JStr "Primary"); ("fileName", JStr "")]]
           [("presetTag", JStr "Primary"); ("fileName", JStr "take.one.mov")]
           [JObj [("presetTag", JStr "Primary"); ("fileName", JStr "other.mov")]]
           "take.one.mov" eq_refl eq_refl eq_refl eq_refl ltac:(done)).
Defined.

(** ** Two whole cycles

    A first cycle that finds the show, from a fresh start, names and starts
    the recording on source 0 and stores the show; a cycle that finds no job
    while the show is stored stops source 0 and stores nothing. *)

Example cycle_finds_show :
  let o := process_polling_cycle (recorder one_job) fresh in
  result o = Ret () ∧
  filter (λ e, is_http e = true) (emitted o)
  = [Http GetActiveJobs; Http (GetFiles (JStr pcr1) (JStr "j1")); Http GetSources;
     Http (PutRecordingName 0 (JStr "show_20240101")); Http (GetRecord 0)] ∧
  map_to_list (previous_active_jobs (final o)) = [(show_key, show_record)] ∧
  state_file (final o) = state_file recording_show ∧
  net (final o) = first_recording.
Proof. intros o. split_and!; by vm_compute. Qed.

Example cycle_loses_show :
  let none (r : request) :=
    match r with GetActiveJobs => Body (JList []) | _ => RequestFailed end in
  let o := process_polling_cycle (recorder none) recording_show in
  result o = Ret () ∧
  filter (λ e, is_http e = true) (emitted o)
  = [Http GetActiveJobs; Http GetSources; Http (GetStop 0)] ∧
  map_to_list (previous_active_jobs (final o)) = [] ∧
  state_file (final o) = Holds (Some (JObj [])) ∧
  net (final o) = all_idle.
Proof. intros none o. split_and!; by vm_compute. Qed.

(** ** The further properties on the concrete scenes *)

(** X1 on a primary system that lists a number as an ingest entry, with the
    show stored: the cycle raises, the turn of the loop does not, and the
    show stays stored. *)
Lemma loop_survives_odd_entries :
  let m := at_script show_running in
  let turn := monitoring_turn (scripted odd_entries) m in
  result (process_polling_cycle (scripted odd_entries) m) = Raise AttributeError ∧
  result turn = Ret () ∧
  last (emitted turn) = Some (Log Error (UnexpectedLoopError AttributeError)) ∧
  previous_active_jobs (final turn) = show_running.
Proof.
  intros m turn.
  assert (Hraise : result (process_polling_cycle (scripted odd_entries) m)
                   = Raise AttributeError) by (vm_compute; reflexivity).
  destruct (loop_survives_raising_cycle (scripted odd_entries) m AttributeError Hraise)
    as (Hret & Hem & Hprev & _).
  split; [exact Hraise|]. split; [exact Hret|]. split; [|exact Hprev].
  fold turn in Hem. rewrite Hem. apply last_snoc.
Defined.

(** X3 on the first cycle that finds the show. *)
Lemma first_cycle_stores_records :
  let o := process_polling_cycle (recorder one_job) fresh in
  result o = Ret () ∧ cycle_shaped (previous_active_jobs (final o)).
Proof.
  intros o.
  assert (Hret : result o = Ret ()) by (vm_compute; reflexivity).
  split; [exact Hret|].
  exact (completed_cycle_stores_records (recorder one_job) fresh Hret).
Defined.

(** X4 on the same list of active jobs. *)
Lemma odd_entries_block_cycle :
  let o := process_polling_cycle (scripted odd_entries) (at_script show_running) in
  (∃ e, result o = Raise e) ∧
  Forall not_recorder (emitted o) ∧
  previous_active_jobs (final o) = show_running.
Proof.
  intros o.
  destruct (malformed_entry_blocks_cycle (scripted odd_entries) (at_script show_running)
              [JNum 5] () (JNum 5) eq_refl ltac:(by left) ltac:(done))
    as (Hraise & Hsent & Hprev & _).
  split; [exact Hraise|]. split; [exact Hsent|exact Hprev].
Defined.

(** X5 on the show, found again under another basename while it is being
    recorded. *)
Lemma renamed_show_sends_nothing :
  let o := reconcile (recorder one_job) show_renamed recording_show in
  result o = Ret () ∧
  Forall (λ e, is_http e = false) (emitted o) ∧
  previous_active_jobs (final o) = show_renamed.
Proof.
  intros o.
  assert (Hdom : dom show_renamed = dom (previous_active_jobs recording_show)).
  { unfold show_renamed, recording_show, show_running. simpl.
    by rewrite !dom_singleton_L. }
  destruct (same_keys_send_nothing (recorder one_job) show_renamed recording_show Hdom)
    as (Hret & Hsent & _ & Hprev).
  split; [exact Hret|]. split; [exact Hsent|exact Hprev].
Defined.

(** X8 on the recorder while it records the show. *)
Lemma stop_of_recording_show :
  let o := stop_secondary_recording (recorder one_job) (JStr "show_20240101")
             (JStr "PCR 1") recording_show in
  result o = Ret () ∧
  net (final o) = all_idle ∧
  filter (λ e, is_http e = true) (emitted o) = [Http GetSources; Http (GetStop 0)] ∧
  last (emitted o) = Some (Log Info (StoppedRecording (JStr "PCR 1"))).
Proof.
  exact (stop_sends_one_stop (recorder one_job) (JStr "show_20240101") "PCR 1" 0
           recording_show (JBool true) (Body JNull) all_idle
           eq_refl eq_refl eq_refl eq_refl).
Defined.

(** X9 on a recorder that takes the name and refuses the record request. *)
Lemma start_on_refusing_recorder :
  let o := start_secondary_recording (scripted refusing_recorder) (JStr "show")
             (JStr "PCR 1") (at_script ∅) in
  result o = Ret () ∧
  emitted o = [Http GetSources; Http (PutRecordingName 0 (JStr "show"));
               Log Info (RecordingNameSet (JStr "show") (JStr "PCR 1"));
               Http (GetRecord 0); Log Error (FailedStartRecording (JStr "PCR 1"))].
Proof.
  intros o.
  pose proof (refused_record_is_only_logged (scripted refusing_recorder) (JStr "show")
                "PCR 1" 0 (at_script ∅) (JBool false) (Body JNull) () ()
                eq_refl eq_refl eq_refl eq_refl eq_refl eq_refl) as Hrun.
  fold o in Hrun. rewrite Hrun. split; reflexivity.
Defined.

(** X10 on a monitor that cannot write its state file, in the cycle that
    finds the show. *)
Lemma show_found_on_read_only :
  let o := reconcile (recorder one_job) show_running read_only in
  result o = Ret () ∧
  previous_active_jobs (final o) = show_running ∧
  state_file (final o) = Absent ∧
  previous_active_jobs (final (load_state (final o))) = ∅.
Proof.
  intros o.
  assert (Hret : result o = Ret ()) by (vm_compute; reflexivity).
  destruct (refused_save_splits_memory_from_file (recorder one_job) show_running
              read_only ltac:(done) Hret) as (Hprev & Hfile & _ & Hload).
  split; [exact Hret|]. split; [exact Hprev|]. split; [exact Hfile|exact Hload].
Defined.

(** X11 on a job whose id is the number 7. *)
Lemma numbered_job_is_not_persisted :
  let m := at_script numbered_job in
  hashable (JNum 7) = Ret (ANum 7) ∧
  emitted (save_state m) = [Log Error UnexpectedSaveError] ∧
  final (save_state m) = m ∧
  ∃ e, get_current_status numbered_job = Raise e.
Proof.
  intros m.
  assert (Hin : numbered_key ∈ dom (previous_active_jobs m)).
  { unfold m, at_script, numbered_job. simpl. rewrite dom_singleton_L.
    by apply elem_of_singleton. }
  destruct (non_string_key_is_never_persisted m numbered_key Hin eq_refl ltac:(done))
    as (_ & Hfin & Hlog & Hstatus).
  split; [reflexivity|]. split; [exact Hlog|]. split; [exact Hfin|exact Hstatus].
Defined.

(** X12 on the state file of the show. *)
Lemma show_loaded_by_split :
  let loaded := previous_active_jobs (final (load_state recording_show)) in
  loaded !! show_key = Some show_record ∧
  (∀ k, k ∈ dom loaded → loaded_key k) ∧
  size loaded = 1%nat.
Proof.
  intros loaded.
  destruct (load_state_stores_split_keys recording_show
              [(join "|" [pcr1; "j1"], show_record)] eq_refl
              ltac:(apply NoDup_singleton))
    as (Hkept & _ & Hkeys & Hsize).
  split; [|split; [exact Hkeys|exact Hsize]].
  exact (Hkept (join "|" [pcr1; "j1"]) show_record ltac:(by left)).
Defined.

Lemma barred_job_strings :
  ∀ k, k ∈ dom barred_job → is_Some (join_key k).
Proof.
  intros k Hk. unfold barred_job in Hk. rewrite dom_singleton_L in Hk.
  apply elem_of_singleton in Hk as ->. by eexists.
Qed.

Lemma barred_key_unambiguous : unambiguous barred_job barred_key.
Proof.
  intros k Hk _. unfold barred_job in Hk. rewrite dom_singleton_L in Hk.
  by apply elem_of_singleton in Hk.
Qed.

(** X13 on a job of an ingest whose id is [ing|1]. *)
Lemma barred_job_is_lost_on_restart :
  let saved := final (save_state (at_script barred_job)) in
  let restarted := Machine (net saved) (state_file saved) (disk saved) ∅ in
  let reloaded := previous_active_jobs (final (load_state restarted)) in
  reloaded !! barred_key = None ∧
  reloaded !! [AStr "ing"; AStr "1"; AStr "j1"] = Some show_record ∧
  barred_key ∈ new_jobs barred_job reloaded ∧
  [AStr "ing"; AStr "1"; AStr "j1"] ∈ stopped_jobs barred_job reloaded.
Proof.
  intros saved restarted reloaded.
  destruct (separator_in_id_breaks_roundtrip (at_script barred_job) "ing|1" "j1"
              show_record ∅ eq_refl barred_job_strings barred_key_unambiguous
              (lookup_singleton_eq _ _) eq_refl)
    as (Hnone & Hsome & _ & Hnext).
  destruct (Hnext barred_job) as [Hnew Hstop].
  - intros k v Hk. unfold barred_job in Hk.
    apply lookup_singleton_Some in Hk as [<- <-]. split; [done|].
    exists "show_20240101", "PCR 1". split; [done|]. split; [done|].
    right. by exists pcr1.
  - unfold barred_job. rewrite dom_singleton_L. by apply elem_of_singleton.
  - split; [exact Hnone|]. split; [exact Hsome|]. split; [exact Hnew|exact Hstop].
Defined.

(** X14 on the snapshot with the show and the stray job. *)
Lemma stray_status_is_saved_file :
  ∃ data,
    get_current_status with_stray = Ret data ∧
    state_file (final (save_state (at_script with_stray)))
    = Holds (Some (JObj (map_to_list data))).
Proof.
  destruct (status_agrees_with_saved_file (at_script with_stray)
              with_stray_recorded eq_refl) as (data & Hstatus & Hfile & _).
  exists data. split; [exact Hstatus|exact Hfile].
Defined.

(** X15 on a recorder whose entries carry no flag: the start sends its
    PUT, the stop sends no stop request. *)
Lemma flagless_source_counts_as_idle :
  let started := emitted (start_secondary_recording (scripted flagless) (JStr "show")
                            (JStr "PCR 1") (at_script ∅)) in
  let stopped := emitted (stop_secondary_recording (scripted flagless) (JStr "show")
                            (JStr "PCR 1") (at_script ∅)) in
  assoc "is_recording" [("name", JStr "cam")] = None ∧
  filter (λ e, is_put e = true) started = [Http (PutRecordingName 0 (JStr "show"))] ∧
  filter (λ e, is_stop e = true) stopped = [].
Proof.
  intros started stopped.
  destruct (flag_decides_which_action_acts (scripted flagless) (JStr "show") "PCR 1" 0
              (at_script ∅) [JObj [("name", JStr "cam")]] [("name", JStr "cam")] ()
              eq_refl eq_refl eq_refl) as (_ & _ & Hput & Hstop).
  split; [reflexivity|]. split; [exact Hput|exact Hstop].
Defined.

(** X16 on a listing whose first primary file is [.mov], followed by a
    primary file with a proper name. *)
Lemma dot_file_job_is_left_out :
  let job := JObj [("id", JStr "j1")] in
  result (extract_basename (scripted dot_file) (JStr pcr1) (JStr "j1") (at_script ∅))
  = Ret (Some "") ∧
  result (scan_job (scripted dot_file) (JStr pcr1) "PCR 1" show_running job (at_script ∅))
  = Ret show_running.
Proof.
  exact (extension_only_name_excludes_job (scripted dot_file) (JStr pcr1) "PCR 1"
           show_running (JObj [("id", JStr "j1")]) (JStr "j1") (at_script ∅)
           _ () []
           [("presetTag", JStr "Primary"); ("fileName", JStr ".mov")]
           [JObj [("presetTag", JStr "Primary"); ("fileName", JStr "real.mov")]]
           "mov" eq_refl eq_refl eq_refl eq_refl eq_refl eq_refl eq_refl).
Defined.

(** X17 on a listing whose primary file has the number 7 for a name. *)
Lemma numbered_file_name_raises :
  let o := scan_job (scripted numbered_file) (JStr pcr1) "PCR 1" ∅
             (JObj [("id", JStr "j1")]) (at_script show_running) in
  result o = Raise AttributeError ∧
  previous_active_jobs (final o) = show_running.
Proof.
  intros o.
  destruct (odd_file_name_raises (scripted numbered_file) (JStr pcr1) "PCR 1" ∅
              (JObj [("id", JStr "j1")]) (JStr "j1") (at_script show_running)
              _ () []
              [("presetTag", JStr "Primary"); ("fileName", JNum 7)] [] (JNum 7)
              eq_refl eq_refl eq_refl eq_refl eq_refl eq_refl eq_refl ltac:(done))
    as (_ & Hraise & Hprev & _).
  split; [exact Hraise|exact Hprev].
Defined.
